(** * Clippi-Coach: event tracking, throttling, batching and narration

    A shallow embedding of the core of [src/src/enhancedcoach.js]
    (match state tracker, per-match throttling, pending-event batching,
    end-of-game summary), of the narration entry point
    [provideLiveCommentary] with its cache
    ([src/src/liveCommentary.js], the provider-abstraction version at
    lines 361-577) and of the template generator
    ([src/src/templateCommentarySystem.js]), and of
    [calculatePerformanceRating] ([src/src/aiCoaching.js]).

    Modelling conventions.
    - [Date.now()] is an argument [now : Z] (milliseconds).  One
      synchronous handler run reads a single clock value.
    - A JS object used as a dictionary is a [gmap]; a JS array indexed by
      player index and written out of range ([lastStockCounts]) is a
      [gmap nat Z] (a JS array with holes).
    - An exception thrown by JS code is [None] in the small
      state-and-exception monad [M] below: the state mutated before the
      throw is kept, as in JS.
    - [provideLiveCommentary] is split at its [await]: overlapping calls
      are a schedule of new calls and settling provider calls over the
      shared cache (the [NStep] steps below), in any interleaving. *)

From Stdlib Require Import ZArith QArith Qround List Lia Sorted.
From stdpp Require Import base gmap strings list.

Import ListNotations.

(* ===================================================================== *)
(** ** Event classes and their thresholds ([EVENT_PRIORITIES]) *)
(* ===================================================================== *)

(** [EVENT_PRIORITIES[eventType].threshold], lines 31-52; [None] for a
    key the object does not have. *)
Definition EVENT_PRIORITIES (eventType : string) : option Z :=
  if String.eqb eventType "STOCK_LOSS" then Some 1000%Z
  else if String.eqb eventType "SIGNIFICANT_COMBO" then Some 1500%Z
  else if String.eqb eventType "MINOR_COMBO" then Some 2500%Z
  else if String.eqb eventType "NEUTRAL_EXCHANGE" then Some 5000%Z
  else if String.eqb eventType "FRAME_UPDATE" then Some 10000%Z
  else None.

(* ===================================================================== *)
(** ** Per-game state ([gameByPath[filePath].state]) *)
(* ===================================================================== *)

(** One entry of [gameState.players] (lines 343-354). *)
Record RosterPlayer := mkRosterPlayer {
  rp_index : nat;
  rp_port : Z;
  rp_character : string
}.

(** One entry of [gameState.stockEvents] (lines 643-649). *)
Record StockEvent := mkStockEvent {
  se_time : Z;
  se_frame : Z;
  se_playerIndex : nat;
  se_stocksLost : Z;
  se_remainingStocks : option Z
}.

(** One entry of [gameState.comboEvents] (lines 699-705). *)
Record ComboRecord := mkComboRecord {
  cr_playerIndex : nat;
  cr_startFrame : Z;
  cr_endFrame : Z;
  cr_moves : nat;
  cr_damage : Q
}.

(** [gameState], created at lines 310-319; [settings] is only tested for
    presence, so it is the flag [settingsKnown]. *)
Record GameState := mkGameState {
  settingsKnown : bool;
  latestFrameProcessed : Z;
  players : list RosterPlayer;
  stockEvents : list StockEvent;
  comboEvents : list ComboRecord;
  lastStockCounts : gmap nat Z;
  lastEventTimes : gmap string Z
}.

Definition set_lastEventTimes (m : gmap string Z) (gs : GameState) : GameState :=
  mkGameState (settingsKnown gs) (latestFrameProcessed gs) (players gs)
    (stockEvents gs) (comboEvents gs) (lastStockCounts gs) m.

Definition set_lastStockCounts (m : gmap nat Z) (gs : GameState) : GameState :=
  mkGameState (settingsKnown gs) (latestFrameProcessed gs) (players gs)
    (stockEvents gs) (comboEvents gs) m (lastEventTimes gs).

Definition set_stockEvents (l : list StockEvent) (gs : GameState) : GameState :=
  mkGameState (settingsKnown gs) (latestFrameProcessed gs) (players gs)
    l (comboEvents gs) (lastStockCounts gs) (lastEventTimes gs).

Definition set_comboEvents (l : list ComboRecord) (gs : GameState) : GameState :=
  mkGameState (settingsKnown gs) (latestFrameProcessed gs) (players gs)
    (stockEvents gs) l (lastStockCounts gs) (lastEventTimes gs).

Definition set_latestFrameProcessed (f : Z) (gs : GameState) : GameState :=
  mkGameState (settingsKnown gs) f (players gs)
    (stockEvents gs) (comboEvents gs) (lastStockCounts gs) (lastEventTimes gs).

(** [[4, 4, 4, 4]] *)
Definition initialStockCounts : gmap nat Z :=
  <[0%nat := 4%Z]> (<[1%nat := 4%Z]> (<[2%nat := 4%Z]> {[3%nat := 4%Z]})).

(* ===================================================================== *)
(** ** [_canTriggerEventType] (lines 133-159) *)
(* ===================================================================== *)

(** The last-triggered time read at line 144:
    [this.gameByPath[filePath]?.state?.lastEventTimes?.[eventType] || 0]. *)
Definition lastTriggeredOf (eventType filePath : string)
    (gameByPath : gmap string GameState) : Z :=
  match gameByPath !! filePath with
  | Some gs => default 0%Z (lastEventTimes gs !! eventType)
  | None => 0%Z
  end.

Definition _canTriggerEventType (now : Z) (eventType filePath : string)
    (gameByPath : gmap string GameState) : bool * gmap string GameState :=
  match EVENT_PRIORITIES eventType with
  | None => (false, gameByPath)
  | Some threshold =>
      if (now - lastTriggeredOf eventType filePath gameByPath <? threshold)%Z
      then (false, gameByPath)
      else match gameByPath !! filePath with
           | Some gs =>
               (true, <[filePath := set_lastEventTimes
                         (<[eventType := now]> (lastEventTimes gs)) gs]> gameByPath)
           | None => (true, gameByPath)
           end
  end.

(** The same check on the game state itself, as the frame handlers use
    it ([this.gameByPath[filePath].state] always exists there). *)
Definition canTrigger (now : Z) (eventType : string) (gs : GameState)
    : bool * GameState :=
  match EVENT_PRIORITIES eventType with
  | None => (false, gs)
  | Some threshold =>
      if (now - default 0%Z (lastEventTimes gs !! eventType) <? threshold)%Z
      then (false, gs)
      else (true, set_lastEventTimes (<[eventType := now]> (lastEventTimes gs)) gs)
  end.

(** A sequence of throttle queries [(now, eventType, filePath)], run in
    order against the coach's [gameByPath]; returns how many queries for
    the given (match, class) were admitted. *)
Fixpoint count_admitted (fp et : string) (calls : list (Z * string * string))
    (g : gmap string GameState) : nat :=
  match calls with
  | [] => 0
  | (t, et', p) :: rest =>
      let '(ok, g') := _canTriggerEventType t et' p g in
      (if ok && String.eqb et' et && String.eqb p fp then 1 else 0)
      + count_admitted fp et rest g'
  end.

(* ===================================================================== *)
(** ** Frames, combos and pending events *)
(* ===================================================================== *)

(** [player.post] of a frame: [stocksRemaining] may be [undefined];
    [actionStateId] is [None] when it is [null] or missing. *)
Record PostFrame := mkPostFrame {
  stocksRemaining : option Z;
  percent : Q;
  actionStateId : option Z
}.

(** [latestFrame.players[i]]: [None] for a missing entry; [post] may be
    missing as well. *)
Record PlayerFrame := mkPlayerFrame {
  post : option PostFrame
}.

Record Frame := mkFrame {
  frame : Z;
  fplayers : option (list (option PlayerFrame))
}.

(** An entry of [stats.combos]: [moves] (the move ids) may be missing,
    [percent] may be [undefined]. *)
Record Combo := mkCombo {
  c_playerIndex : nat;
  c_startFrame : Z;
  c_endFrame : Z;
  c_moves : option (list Z);
  c_percent : option Q;
  c_startPercent : Q;
  c_endPercent : Q
}.

Inductive ActionDetails :=
| NoDetails
| TechDetails (techType : string)
| AerialDetails (aerial : string).

(** The [actionState] objects the detector passes to [_addPendingEvent]. *)
Record ActionEvent := mkActionEvent {
  ae_subType : string;
  ae_playerIndex : nat;
  ae_frame : Z;
  ae_details : ActionDetails
}.

(** The objects passed to [_addPendingEvent]. *)
Inductive PendingEvent :=
| EvGameStart (matchup : list string) (stage : Z)
| EvStockLost (playerIndex : nat) (stocksLost : Z) (remainingStocks : option Z)
    (playerCharacter : string) (frameNo : Z)
| EvCombo (playerIndex : nat) (moves : nat) (damage : Q)
    (playerCharacter : string) (startFrame endFrame : Z) (moveTypes : list Z)
| EvFrameUpdate (frameNo : Z) (snapshot : gmap nat (Q * option Z))
| EvGameEnd (endType : string) (frameNo : Z)
| EvAction (ev : ActionEvent).

(* ===================================================================== *)
(** ** A state-and-exception monad for one match *)
(* ===================================================================== *)

(** The state one match's handlers touch: its game state, its queue
    [this.pendingEvents[filePath]] and [this.previousFrames[filePath]]
    ([None]: not set). *)
Record St := mkSt {
  gst : GameState;
  pending : list PendingEvent;
  previousFrame : option Frame
}.

(** [None]: the JS code threw; the state reached so far is kept. *)
Definition M (A : Type) : Type := St -> St * option A.

Global Instance M_ret : MRet M := fun A a s => (s, Some a).

Global Instance M_bind : MBind M := fun A B k m s =>
  match m s with
  | (s', Some a) => k a s'
  | (s', None) => (s', None)
  end.

Definition throw {A} : M A := fun s => (s, None).

Definition getGS : M GameState := fun s => (s, Some (gst s)).

Definition modifyGS (f : GameState -> GameState) : M unit :=
  fun s => (mkSt (f (gst s)) (pending s) (previousFrame s), Some tt).

(** [this._canTriggerEventType(eventType, filePath)] *)
Definition throttle (now : Z) (eventType : string) : M bool :=
  fun s => let '(ok, gs') := canTrigger now eventType (gst s) in
           (mkSt gs' (pending s) (previousFrame s), Some ok).

(** [this._addPendingEvent(filePath, event)] on this match's queue (the
    shared drain timer is modelled with the batcher below). *)
Definition addPending (e : PendingEvent) : M unit :=
  fun s => (mkSt (gst s) (pending s ++ [e]) (previousFrame s), Some tt).

(** [this.previousFrames[filePath] = latestFrame] *)
Definition setPreviousFrame (fr : Frame) : M unit :=
  fun s => (mkSt (gst s) (pending s) (Some fr), Some tt).

(** [forEach] over a list with its index. *)
Fixpoint forEachIdx {A} (f : nat -> A -> M unit) (i : nat) (l : list A) : M unit :=
  match l with
  | [] => mret tt
  | x :: rest => f i x ;; forEachIdx f (S i) rest
  end.

Fixpoint forEachM {A} (f : A -> M unit) (l : list A) : M unit :=
  match l with
  | [] => mret tt
  | x :: rest => f x ;; forEachM f rest
  end.

(** [playerData?.character || "Unknown"] with [playerData =
    gameState.players[playerIndex]]. *)
Definition characterOf (gs : GameState) (playerIndex : nat) : string :=
  match nth_error (players gs) playerIndex with
  | Some p => if String.eqb (rp_character p) "" then "Unknown" else rp_character p
  | None => "Unknown"
  end.

(* ===================================================================== *)
(** ** [_handleStockLost] (lines 634-669) and [_checkStockChanges]
       (lines 606-625) *)
(* ===================================================================== *)

Definition _handleStockLost (now : Z) (playerIndex : nat) (stocksLost : Z)
    (fr : Frame) : M unit :=
  ok ← throttle now "STOCK_LOSS" ;
  if negb ok then mret tt else
  gs ← getGS ;
  let remaining := lastStockCounts gs !! playerIndex in
  modifyGS (set_stockEvents
    (stockEvents gs ++
       [mkStockEvent now (frame fr) playerIndex stocksLost remaining])) ;;
  addPending (EvStockLost playerIndex stocksLost remaining
                (characterOf gs playerIndex) (frame fr)).

Definition checkStockOf (now : Z) (fr : Frame) (playerIndex : nat)
    (player : option PlayerFrame) : M unit :=
  match player with
  | None => mret tt
  | Some p =>
      match post p with
      | None => mret tt
      | Some pf =>
          match stocksRemaining pf with
          | None => mret tt
          | Some currentStocks =>
              gs ← getGS ;
              let previousStocks := lastStockCounts gs !! playerIndex in
              (match previousStocks with
               | Some prev =>
                   if (currentStocks <? prev)%Z
                   then _handleStockLost now playerIndex (prev - currentStocks) fr
                   else mret tt
               | None => mret tt
               end) ;;
              gs' ← getGS ;
              modifyGS (set_lastStockCounts
                          (<[playerIndex := currentStocks]> (lastStockCounts gs')))
          end
      end
  end.

Definition _checkStockChanges (now : Z) (fr : Frame) : M unit :=
  match fplayers fr with
  | Some ps => forEachIdx (checkStockOf now fr) 0 ps
  | None => throw
  end.

(* ===================================================================== *)
(** ** The heartbeat of [_processFrameData] (lines 558-585) *)
(* ===================================================================== *)

(** [parseFloat(x.toFixed(1))] on an exact value: the nearest multiple of
    1/10, ties to the larger magnitude (toFixed rounds |x| and puts the
    sign back). *)
Definition round1 (x : Q) : Q :=
  if Qle_bool 0 x then (inject_Z (Qfloor (x * 10 + (1 # 2))) / 10)%Q
  else (- (inject_Z (Qfloor (- x * 10 + (1 # 2))) / 10))%Q.

(** One step of [_.forEach(gameState.players, ...)]: [frameData] is
    [latestFrame.players[player.index]]; [frameData.post.percent] throws
    when [post] is missing. *)
Definition snapshotOf (ps : list (option PlayerFrame)) (p : RosterPlayer)
    (acc : gmap nat (Q * option Z)) : option (gmap nat (Q * option Z)) :=
  match mjoin (ps !! rp_index p) with
  | None => Some acc
  | Some pfr =>
      match post pfr with
      | None => None
      | Some pf => Some (<[rp_index p := (round1 (percent pf), stocksRemaining pf)]> acc)
      end
  end.

Fixpoint buildSnapshot (ps : list (option PlayerFrame)) (roster : list RosterPlayer)
    (acc : gmap nat (Q * option Z)) : option (gmap nat (Q * option Z)) :=
  match roster with
  | [] => Some acc
  | p :: rest =>
      match snapshotOf ps p acc with
      | Some acc' => buildSnapshot ps rest acc'
      | None => None
      end
  end.

(** [latestFrame.frame % 300 === 0 && this._canTriggerEventType('FRAME_UPDATE', ...)] *)
Definition heartbeat (now : Z) (fr : Frame) (ps : list (option PlayerFrame)) : M unit :=
  if (Z.rem (frame fr) 300 =? 0)%Z then
    ok ← throttle now "FRAME_UPDATE" ;
    if (ok : bool) then
      gs ← getGS ;
      match buildSnapshot ps (players gs) ∅ with
      | Some snap => addPending (EvFrameUpdate (frame fr) snap)
      | None => throw
      end
    else mret tt
  else mret tt.

(* ===================================================================== *)
(** ** [_processNewCombos] (lines 676-737) *)
(* ===================================================================== *)

Definition comboSeen (history : list ComboRecord) (c : Combo) : bool :=
  existsb (fun e => Nat.eqb (cr_playerIndex e) (c_playerIndex c)
                    && Z.eqb (cr_startFrame e) (c_startFrame c)) history.

(** The filter of lines 682-689, evaluated once against the history. *)
Definition isNewCombo (history : list ComboRecord) (c : Combo) : bool :=
  match c_moves c with
  | Some mv => Nat.leb 2 (length mv) && negb (comboSeen history c)
  | None => false
  end.

(** [combo.percent], filled in at line 695 when undefined. *)
Definition comboPercent (c : Combo) : Q :=
  match c_percent c with
  | Some p => p
  | None => (c_endPercent c - c_startPercent c)%Q
  end.

Definition comboMoves (c : Combo) : list Z := default [] (c_moves c).

Definition comboRecordOf (c : Combo) : ComboRecord :=
  mkComboRecord (c_playerIndex c) (c_startFrame c) (c_endFrame c)
    (length (comboMoves c)) (comboPercent c).

(** The body of [newCombos.forEach] (lines 692-736). *)
Definition processCombo (now : Z) (c : Combo) : M unit :=
  gs ← getGS ;
  modifyGS (set_comboEvents (comboEvents gs ++ [comboRecordOf c])) ;;
  let comboType := if Nat.leb 4 (length (comboMoves c))
                   then "SIGNIFICANT_COMBO" else "MINOR_COMBO" in
  ok ← throttle now comboType ;
  if negb ok then mret tt else
  addPending (EvCombo (c_playerIndex c) (length (comboMoves c)) (comboPercent c)
                (characterOf gs (c_playerIndex c)) (c_startFrame c) (c_endFrame c)
                (comboMoves c)).

Definition _processNewCombos (now : Z) (combos : list Combo) : M unit :=
  match combos with
  | [] => mret tt
  | _ =>
      gs ← getGS ;
      forEachM (processCombo now) (List.filter (isNewCombo (comboEvents gs)) combos)
  end.

(* ===================================================================== *)
(** ** [_detectStateTransitions] (lines 392-470) *)
(* ===================================================================== *)

(** The entries of [ACTION_STATES] (lines 55-81) the detector reads. *)
Definition TECH_START : Z := 0xC7.
Definition TECH_ROLL_LEFT : Z := 0xC9.
Definition TECH_ROLL_RIGHT : Z := 0xCA.
Definition FIRE_FOX_AIR : Z := 0x15A.
Definition UP_B_AIR : Z := 0x15C.
Definition GRAB : Z := 0xD4.
Definition SHIELD : Z := 0xB3.
Definition NAIR : Z := 0x41.
Definition FAIR : Z := 0x42.
Definition BAIR : Z := 0x43.
Definition UAIR : Z := 0x44.
Definition DAIR : Z := 0x45.
Definition FALL : Z := 0x1D.

(** [state === k] for an action state id that may be [null]. *)
Definition isState (s : option Z) (k : Z) : bool :=
  match s with Some x => Z.eqb x k | None => false end.

(** [[...].includes(state)] *)
Definition stateIn (l : list Z) (s : option Z) : bool := existsb (isState s) l.

(** [aerialMap[prevState] || 'aerial'] *)
Definition aerialName (prevState : option Z) : string :=
  if isState prevState NAIR then "neutral air"
  else if isState prevState FAIR then "forward air"
  else if isState prevState BAIR then "back air"
  else if isState prevState UAIR then "up air"
  else if isState prevState DAIR then "down air"
  else "aerial".

(** [if (this._canTriggerEventType('NEUTRAL_EXCHANGE', filePath))
    this._addPendingEvent(filePath, ev)]: the game state and the events
    queued so far. *)
Definition emitAction (now : Z) (ev : ActionEvent) (acc : GameState * list ActionEvent)
    : GameState * list ActionEvent :=
  let '(gs, evs) := acc in
  let '(ok, gs') := canTrigger now "NEUTRAL_EXCHANGE" gs in
  (gs', if ok then evs ++ [ev] else evs).

(** The body of [currentFrame.players.forEach] (lines 398-468) for a
    non-null [player]: the guard of line 398, then the four detections. *)
Definition detectPlayer (now fno : Z) (prevPlayers : list (option PlayerFrame))
    (playerIndex : nat) (player : PlayerFrame) (acc : GameState * list ActionEvent)
    : GameState * list ActionEvent :=
  match mjoin (prevPlayers !! playerIndex) with
  | None => acc
  | Some prevPlayer =>
      match post player, post prevPlayer with
      | Some pc, Some pp =>
          let prevState := actionStateId pp in
          let currentState := actionStateId pc in
          if bool_decide (prevState = currentState) then acc else
          let acc1 :=
            if stateIn [TECH_START; TECH_ROLL_LEFT; TECH_ROLL_RIGHT] currentState then
              let techType :=
                if isState currentState TECH_START then "in-place"
                else if isState currentState TECH_ROLL_LEFT then "roll left"
                else "roll right" in
              emitAction now (mkActionEvent "tech" playerIndex fno (TechDetails techType)) acc
            else acc in
          let acc2 :=
            if isState currentState SHIELD || isState currentState GRAB then
              emitAction now
                (mkActionEvent (if isState currentState SHIELD then "shield" else "grab")
                   playerIndex fno NoDetails) acc1
            else acc1 in
          let acc3 :=
            if stateIn [FIRE_FOX_AIR; UP_B_AIR] currentState then
              emitAction now (mkActionEvent "recovery" playerIndex fno NoDetails) acc2
            else acc2 in
          if isState currentState FALL && stateIn [NAIR; FAIR; BAIR; UAIR; DAIR] prevState then
            emitAction now
              (mkActionEvent "aerial" playerIndex fno (AerialDetails (aerialName prevState))) acc3
          else acc3
      | _, _ => acc
      end
  end.

(** [currentFrame.players.forEach(...)].  For a [null] entry the guard of
    line 398 returns when [previousFrame.players[playerIndex]] is falsy;
    otherwise it reads [player.post] and throws ([false]: the loop stopped
    with an exception; the events queued and the throttle updates made so
    far stay). *)
Fixpoint detectLoop (now fno : Z) (prevPlayers : list (option PlayerFrame)) (i : nat)
    (ps : list (option PlayerFrame)) (acc : GameState * list ActionEvent)
    : GameState * list ActionEvent * bool :=
  match ps with
  | [] => (acc, true)
  | None :: rest =>
      match mjoin (prevPlayers !! i) with
      | None => detectLoop now fno prevPlayers (S i) rest acc
      | Some _ => (acc, false)
      end
  | Some p :: rest => detectLoop now fno prevPlayers (S i) rest (detectPlayer now fno prevPlayers i p acc)
  end.

(** [_detectStateTransitions(filePath, currentFrame)] with
    [previousFrame = this.previousFrames[filePath]]; [now] is the time of
    the throttle queries.  Returns the game state, the events queued, in
    order, and [false] when it threw ([currentFrame.players] missing, or
    a [null] entry where the previous frame has one). *)
Definition _detectStateTransitions (now : Z) (previousFrame : option Frame)
    (currentFrame : Frame) (gs : GameState) : GameState * list ActionEvent * bool :=
  match previousFrame with
  | None => (gs, [], true)
  | Some pf =>
      match fplayers pf with
      | None => (gs, [], true)
      | Some prevPlayers =>
          match fplayers currentFrame with
          | None => (gs, [], false)
          | Some ps => detectLoop now (frame currentFrame) prevPlayers 0 ps (gs, [])
          end
      end
  end.

(** The call at line 362 on this match's state: the events go to the
    match's queue. *)
Definition detectStep (now : Z) (fr : Frame) : M unit :=
  fun s =>
    let '(gs', evs, ok) := _detectStateTransitions now (previousFrame s) fr (gst s) in
    (mkSt gs' (pending s ++ map EvAction evs) (previousFrame s), if ok then Some tt else None).

(** Successive detector runs on one match, each with its time and the
    previous frame it compares with; returns the final game state and
    all events queued, in order. *)
Fixpoint detectRun (calls : list (Z * option Frame * Frame)) (gs : GameState)
    : GameState * list ActionEvent :=
  match calls with
  | [] => (gs, [])
  | (now, prev, cur) :: rest =>
      let '(gs', evs, _) := _detectStateTransitions now prev cur gs in
      let '(gs'', evs') := detectRun rest gs' in
      (gs'', evs ++ evs')
  end.

(* ===================================================================== *)
(** ** [_processFrameData] (lines 552-599) and the frame gate of
       [_handleFileChange] (lines 359-370) *)
(* ===================================================================== *)

(** [stats] is [game.getStats()]; the [try]/[catch] of lines 591-598
    only swallows errors of that block, which the model never raises. *)
Definition _processFrameData (now : Z) (fr : Frame) (stats : option (list Combo)) : M unit :=
  match fplayers fr with
  | None => mret tt
  | Some ps =>
      heartbeat now fr ps ;;
      _checkStockChanges now fr ;;
      match stats with
      | Some (_ :: _ as combos) => _processNewCombos now combos
      | _ => mret tt
      end
  end.

(** Lines 359-370: the frame gate, the detector (only once a frame above
    0 was processed), the stored previous frame, [_processFrameData] and
    the new [latestFrameProcessed].  An exception of any of them skips
    the rest (it is caught at line 379). *)
Definition handleFrame (now : Z) (fr : Frame) (stats : option (list Combo)) : M unit :=
  gs ← getGS ;
  if settingsKnown gs && (latestFrameProcessed gs <? frame fr)%Z then
    (if (0 <? latestFrameProcessed gs)%Z then detectStep now fr else mret tt) ;;
    setPreviousFrame fr ;;
    _processFrameData now fr stats ;;
    modifyGS (set_latestFrameProcessed (frame fr))
  else mret tt.

(** Successive file-change events: an exception is caught at line 379
    and the next event starts from the state reached. *)
Fixpoint runFrames (inputs : list (Z * Frame * option (list Combo))) (s : St) : St :=
  match inputs with
  | [] => s
  | (now, fr, stats) :: rest => runFrames rest (fst (handleFrame now fr stats s))
  end.

(* ===================================================================== *)
(** ** Game start (lines 300-356 and [_handleGameStart], 510-545) *)
(* ===================================================================== *)

(** The state of a fresh game right after its settings became known:
    the state created at lines 310-319, [_handleGameStart]'s reset and
    its [gameStart] event, then [gameState.players] (lines 343-354); no
    previous frame is stored for a new path. *)
Definition gameStarted (roster : list RosterPlayer) (stage : Z) : St :=
  mkSt (mkGameState true (-999)%Z roster [] [] initialStockCounts ∅)
       [EvGameStart (map rp_character roster) stage] None.

(* ===================================================================== *)
(** ** End-of-game summary ([_generateGameAnalysis], lines 781-828) *)
(* ===================================================================== *)

(** [stocksLostByPlayer[idx] || 0] *)
Definition stocksLostFor (idx : nat) (events : list StockEvent) : Z :=
  fold_left (fun acc e => if Nat.eqb (se_playerIndex e) idx
                          then (acc + se_stocksLost e)%Z else acc) events 0%Z.

(** [totalDamage[idx] || 0] *)
Definition damageFor (idx : nat) (combos : list ComboRecord) : Q :=
  fold_left (fun acc c => if Nat.eqb (cr_playerIndex c) idx
                          then (acc + cr_damage c)%Q else acc) combos 0%Q.

(** [combosByPlayer[idx]?.length || 0] *)
Definition comboCountFor (idx : nat) (combos : list ComboRecord) : nat :=
  length (List.filter (fun c => Nat.eqb (cr_playerIndex c) idx) combos).

(** One summary row: (damage dealt, stocks lost, combo count). *)
Record SummaryRow := mkSummaryRow {
  damageDealt : Q;
  stockLosses : Z;
  comboCount : nat
}.

(** [gameState.players.map((p, idx) => ...)]; [None] when the roster is
    empty (line 786). *)
Definition _generateGameAnalysis (gs : GameState) : option (list SummaryRow) :=
  match players gs with
  | [] => None
  | roster =>
      Some (imap (fun idx _ =>
                    mkSummaryRow (damageFor idx (comboEvents gs))
                      (stocksLostFor idx (stockEvents gs))
                      (comboCountFor idx (comboEvents gs))) roster)
  end.

(* ===================================================================== *)
(** ** The event batcher ([_addPendingEvent], lines 166-177, and
       [_processPendingEvents], lines 182-226) *)
(* ===================================================================== *)

(** [PENDING_EVENTS_LIMIT] *)
Definition PENDING_EVENTS_LIMIT : nat := 3.

(** The coach's batching state.  A queued event is identified by the
    number it got when it was enqueued (every call of [_addPendingEvent]
    pushes a fresh object).  [hasGame] is the set of paths with a
    [gameByPath[p].state]; [intervalOn] is [this.eventProcessorInterval
    !== null]; [released] lists the batches handed to
    [provideLiveCommentary], oldest first. *)
Record BState := mkBState {
  pendingEvents : gmap string (list nat);
  hasGame : gset string;
  intervalOn : bool;
  nextId : nat;
  released : list (string * list nat)
}.

Definition initBState : BState := mkBState ∅ ∅ false 0 [].

(** [_addPendingEvent(filePath, event)]: create the queue if needed, push,
    start the interval if it is not running. *)
Definition addPendingB (p : string) (s : BState) : BState :=
  mkBState (<[p := default [] (pendingEvents s !! p) ++ [nextId s]]> (pendingEvents s))
    (hasGame s) true (S (nextId s)) (released s).

(** One iteration of the [for] loop of [_processPendingEvents] for key
    [p]: [events.splice(0, PENDING_EVENTS_LIMIT)] removes the oldest
    events from the stored array and forwards them as one batch. *)
Definition drainKey (p : string) (s : BState) : BState :=
  let events := default [] (pendingEvents s !! p) in
  match events with
  | [] => s
  | _ :: _ =>
      if decide (p ∈ hasGame s) then
        mkBState (<[p := drop PENDING_EVENTS_LIMIT events]> (pendingEvents s))
          (hasGame s) (intervalOn s) (nextId s)
          (released s ++ [(p, take PENDING_EVENTS_LIMIT events)])
      else s
  end.

(** [!Object.values(this.pendingEvents).some(events => events.length > 0)] *)
Definition noPending (s : BState) : bool :=
  bool_decide (map_Forall (fun _ (q : list nat) => q = []) (pendingEvents s)).

(** The end of [_processPendingEvents] (lines 220-225). *)
Definition endTick (s : BState) : BState :=
  if noPending s
  then mkBState (pendingEvents s) (hasGame s) false (nextId s) (released s)
  else s.

(** [_handleFileRemoval] (lines 476-503): the queue of a tracked game is
    deleted. *)
Definition removeFile (p : string) (s : BState) : BState :=
  if decide (p ∈ hasGame s)
  then mkBState (delete p (pendingEvents s)) (hasGame s) (intervalOn s) (nextId s) (released s)
  else s.

(** A new game entry in [_handleFileChange] (lines 303-329) with its
    empty queue. *)
Definition newGame (p : string) (s : BState) : BState :=
  if decide (p ∈ hasGame s) then s
  else mkBState (<[p := []]> (pendingEvents s)) ({[p]} ∪ hasGame s) (intervalOn s)
         (nextId s) (released s).

(** [stop()] (lines 271-284): the interval is cleared; the queues are
    kept. *)
Definition stopB (s : BState) : BState :=
  mkBState (pendingEvents s) (hasGame s) false (nextId s) (released s).

(** Every interleaving of enqueues, per-key drain iterations (the loop
    awaits between keys, so other handlers run in between), ends of
    ticks, file removals, new games and [stop()] calls.  Drains are allowed at any time,
    which includes every schedule of the real timer. *)
Inductive BStep : BState -> BState -> Prop :=
| BS_add p s : BStep s (addPendingB p s)
| BS_drain p s : BStep s (drainKey p s)
| BS_endTick s : BStep s (endTick s)
| BS_remove p s : BStep s (removeFile p s)
| BS_newGame p s : BStep s (newGame p s)
| BS_stop s : BStep s (stopB s).

Inductive BReachable : BState -> Prop :=
| BR_init : BReachable initBState
| BR_step s s' : BReachable s -> BStep s s' -> BReachable s'.

(** The ids of all released events, in release order. *)
Definition releasedIds (s : BState) : list nat := concat (map snd (released s)).

(** The ids released for match [p], in release order. *)
Definition releasedOf (p : string) (s : BState) : list nat :=
  concat (map snd (List.filter (fun b => String.eqb (fst b) p) (released s))).

(** The ids still queued, over all matches (in the map's order). *)
Definition allQueued (m : gmap string (list nat)) : list nat :=
  concat (map snd (map_to_list m)).

(** The invariant of the batcher: ids below [nextId], never in two
    places, in enqueue order per match, and batches of 1 to 3 events. *)
Definition BInv (s : BState) : Prop :=
  (forall x, In x (releasedIds s ++ allQueued (pendingEvents s)) -> x < nextId s) /\
  NoDup (releasedIds s ++ allQueued (pendingEvents s)) /\
  (forall p, StronglySorted lt (releasedOf p s ++ default [] (pendingEvents s !! p))) /\
  List.Forall (fun b => 1 <= length (snd b) <= PENDING_EVENTS_LIMIT) (released s).

(* ===================================================================== *)
(** ** JS values for the narration layer *)
(* ===================================================================== *)

(** A field of an event object as the narration code reads it. *)
Inductive JsVal :=
| JUndef
| JNull
| JNaN
| JNum (q : Q)
| JStr (s : string)
| JBool (b : bool).

(** The JS built-ins the narration code applies to numbers: [String(x)]
    for a finite number, [parseFloat(v).toFixed(1)], [Number(v)] ([None]
    for NaN), and the [STAGE_NAMES] table of [utils/constants.js]
    ([JUndef] for a missing stage). *)
Record JsRuntime := mkJsRuntime {
  numToString : Q -> string;
  toFixed1 : JsVal -> string;
  toNumber : JsVal -> option Q;
  STAGE_NAMES : JsVal -> JsVal
}.

Definition truthy (v : JsVal) : bool :=
  match v with
  | JUndef | JNull | JNaN => false
  | JNum q => negb (Qeq_bool q 0)
  | JStr s => negb (String.eqb s "")
  | JBool b => b
  end.

(** [v || w] *)
Definition jsOr (v w : JsVal) : JsVal := if truthy v then v else w.

Definition isUndef (v : JsVal) : bool :=
  match v with JUndef => true | _ => false end.

(** [v === "lit"] *)
Definition isStr (v : JsVal) (lit : string) : bool :=
  match v with JStr s => String.eqb s lit | _ => false end.

(** [v === w] (NaN is not equal to itself). *)
Definition jsStrictEq (v w : JsVal) : bool :=
  match v, w with
  | JUndef, JUndef | JNull, JNull => true
  | JNum a, JNum b => Qeq_bool a b
  | JStr a, JStr b => String.eqb a b
  | JBool a, JBool b => Bool.eqb a b
  | _, _ => false
  end.

(** Template-literal interpolation [`${v}`]. *)
Definition jsToString (rt : JsRuntime) (v : JsVal) : string :=
  match v with
  | JUndef => "undefined"
  | JNull => "null"
  | JNaN => "NaN"
  | JNum q => numToString rt q
  | JStr s => s
  | JBool b => if b then "true" else "false"
  end.

Definition numOrNaN (rt : JsRuntime) (o : option Q) : string :=
  match o with Some q => numToString rt q | None => "NaN" end.

(** [v + 1] *)
Definition jsPlusOne (rt : JsRuntime) (v : JsVal) : JsVal :=
  match v with
  | JStr s => JStr (s +:+ "1")
  | _ => match toNumber rt v with Some q => JNum (q + 1)%Q | None => JNaN end
  end.

(** Concatenation of the pieces of a template literal. *)
Fixpoint cat (l : list string) : string :=
  match l with
  | [] => ""
  | s :: rest => s +:+ cat rest
  end.

(** [templates[Math.floor(Math.random() * templates.length)]]: [rnd] is
    the drawn index. *)
Definition pick (rnd : nat) (templates : list string) : string :=
  nth (rnd mod length templates) templates "".

(** An event object handed to the narration layer.  [ev_techType] and
    [ev_aerial] are [details?.techType] and [details?.aerial];
    [ev_matchup] is [event.matchup] ([None]: undefined); [ev_players]
    holds the [percent] fields of [Object.entries(event.players)]. *)
Record NEvent := mkNEvent {
  ev_type : JsVal;
  ev_playerIndex : JsVal;
  ev_moves : JsVal;
  ev_damage : JsVal;
  ev_remainingStocks : JsVal;
  ev_playerCharacter : JsVal;
  ev_isHuman : JsVal;
  ev_subType : JsVal;
  ev_techType : JsVal;
  ev_aerial : JsVal;
  ev_matchup : option (list JsVal);
  ev_stage : JsVal;
  ev_endType : JsVal;
  ev_lrasQuitter : JsVal;
  ev_winnerIndex : JsVal;
  ev_frame : JsVal;
  ev_players : option (list JsVal)
}.

(** An entry of [gameState.players] as the game-end template reads it. *)
Record GsPlayer := mkGsPlayer {
  gp_index : JsVal;
  gp_character : JsVal;
  gp_port : JsVal
}.

(* ===================================================================== *)
(** ** [generateTemplateCommentary] (templateCommentarySystem.js) *)
(* ===================================================================== *)

Section Templates.
Variable rt : JsRuntime.
Variable rnd : nat.

Let str := jsToString rt.

Definition safeCharacter (e : NEvent) : string :=
  str (jsOr (ev_playerCharacter e) (JStr "Fighter")).

(** lines 44-60 *)
Definition generateComboTemplate (e : NEvent) : string :=
  let performer := if jsStrictEq (ev_isHuman e) (JBool false) then "CPU" else "Player" in
  let safeMoves := str (jsOr (ev_moves e) (JStr "?")) in
  let safeDamage := if negb (isUndef (ev_damage e)) then toFixed1 rt (ev_damage e) else "?" in
  pick rnd
    [cat [performer; "'s "; safeCharacter e; " lands a "; safeMoves; "-hit combo for ";
          safeDamage; "%!"];
     cat [safeMoves; " hits from "; safeCharacter e; " dealing "; safeDamage; "% damage!"];
     cat [safeCharacter e; " extends the punish with a "; safeMoves; "-piece for ";
          safeDamage; "%!"]].

(** lines 67-82 *)
Definition generateStockLostTemplate (e : NEvent) : string :=
  let player := if jsStrictEq (ev_isHuman e) (JBool false) then "CPU" else "Player" in
  let safeStocks := if negb (isUndef (ev_remainingStocks e))
                    then str (ev_remainingStocks e) else "?" in
  pick rnd
    [cat [player; "'s "; safeCharacter e; " loses a stock! "; safeStocks; " remaining."];
     cat [safeCharacter e; " gets sent to the blast zone! "; safeStocks; " stocks left."];
     cat ["Down goes "; safeCharacter e; "! "; safeStocks; " stocks remaining."]].

(** lines 89-157 *)
Definition generateActionStateTemplate (e : NEvent) : string :=
  let c := safeCharacter e in
  if isStr (ev_subType e) "wavedash-land" then
    pick rnd [cat ["Perfect wavedash from "; c; "!"];
              cat ["Clean wavedash to reposition by "; c; "."];
              cat [c; " executes a frame-perfect wavedash."]]
  else if isStr (ev_subType e) "l-cancel-attempt" then
    let aerialType := str (jsOr (ev_aerial e) (JStr "aerial")) in
    pick rnd [cat [c; " L-cancels that "; aerialType; "!"];
              cat ["Nice L-cancel on the "; aerialType; " from "; c; "."];
              cat ["Quick L-cancel to maintain pressure by "; c; "."]]
  else if isStr (ev_subType e) "tech" then
    let techType := str (jsOr (ev_techType e) (JStr "tech")) in
    pick rnd [cat [c; " techs "; techType; "!"];
              cat ["Good "; techType; " tech by "; c; "."];
              cat [c; " saves position with a "; techType; " tech."]]
  else if isStr (ev_subType e) "tech-miss" then
    pick rnd [cat [c; " misses the tech!"];
              cat ["No tech from "; c; "!"];
              cat [c; " fails to tech that hit."]]
  else if isStr (ev_subType e) "shield" then
    pick rnd [cat [c; " shields the attack."];
              cat ["Quick defensive shield from "; c; "."];
              cat [c; " puts up the shield."]]
  else if isStr (ev_subType e) "grab" then
    pick rnd [cat [c; " gets the grab!"];
              cat ["Grab opportunity for "; c; "."];
              cat [c; " secures a grab."]]
  else if isStr (ev_subType e) "recovery" then
    pick rnd [cat [c; " recovers with up-B."];
              cat ["Recovery attempt from "; c; "."];
              cat [c; " uses up-B to get back."]]
  else cat ["Technical execution from "; c; "!"].

(** lines 165-183 *)
Definition generateGameStartTemplate (e : NEvent) : string :=
  let matchup := default [] (ev_matchup e) in
  let stageName := str (jsOr (STAGE_NAMES rt (ev_stage e))
                             (JStr (cat ["Stage "; str (ev_stage e)]))) in
  match matchup with
  | m0 :: m1 :: _ =>
      pick rnd
        [cat ["Match starting: "; str m0; " vs "; str m1; " on "; stageName; "!"];
         cat ["Here we go! "; str m0; " facing off against "; str m1; " on "; stageName; "."];
         cat ["Battle begins between "; str m0; " and "; str m1; " on "; stageName;
              ". Let's see some tech skill!"]]
  | _ => cat ["Match starting on "; stageName; "!"]
  end.

(** [p.character || "Player " + (p.port || (idx + 1))] *)
Definition playerLabel (p : GsPlayer) (idx : JsVal) : string :=
  if truthy (gp_character p) then str (gp_character p)
  else "Player " +:+ str (jsOr (gp_port p) (jsPlusOne rt idx)).

(** lines 191-223 *)
Definition generateGameEndTemplate (e : NEvent) (gameState : option (list GsPlayer)) : string :=
  if isStr (ev_endType e) "No Contest" && negb (isUndef (ev_lrasQuitter e)) then
    cat ["Game ended early - Player "; str (jsPlusOne rt (ev_lrasQuitter e));
         " has left the match."]
  else
    let w := ev_winnerIndex e in
    let '(winner, loser) :=
      match gameState with
      | Some gps =>
          if negb (isUndef w) && negb (jsStrictEq w (JNum (-1))) then
            let winner := match List.find (fun p => jsStrictEq (gp_index p) w) gps with
                          | Some wp => playerLabel wp w
                          | None => "The winner"
                          end in
            let loser := match List.find (fun p => negb (jsStrictEq (gp_index p) w)) gps with
                         | Some lp => playerLabel lp (gp_index lp)
                         | None => "the opponent"
                         end in
            (winner, loser)
          else ("The winner", "the opponent")
      | None => ("The winner", "the opponent")
      end in
    pick rnd
      [cat ["Game! "; winner; " takes the victory over "; loser; "."];
       cat ["That's it! "; winner; " clutches out the win against "; loser; "."];
       cat ["Match complete! "; winner; " bests "; loser; " in a hard-fought set."]].

(** [x % y] on numbers *)
Definition jsRem (x y : Q) : Q :=
  let t := if Qle_bool 0 (x / y) then Qfloor (x / y) else Qceiling (x / y) in
  (x - inject_Z t * y)%Q.

(** [s.padStart(2, '0')] *)
Definition padStart2 (s : string) : string :=
  match String.length s with
  | 0 => "00"
  | 1 => "0" +:+ s
  | _ => s
  end.

(** lines 231-253 *)
Definition generateFrameUpdateTemplate (e : NEvent) : string :=
  let frameNum := toNumber rt (ev_frame e) in
  let gameMinute := option_map (fun f => inject_Z (Qfloor (f / 3600))) frameNum in
  let gameSecond := option_map (fun f => inject_Z (Qfloor (jsRem f 3600 / 60))) frameNum in
  let percentageText :=
    match ev_players e with
    | Some (p0 :: p1 :: _) => cat [" with "; str p0; "% vs "; str p1; "%"]
    | _ => ""
    end in
  let minuteStr := numOrNaN rt gameMinute in
  let secondStr := padStart2 (numOrNaN rt gameSecond) in
  let plural := match gameMinute with
                | Some m => if Qeq_bool m 1 then "" else "s"
                | None => "s"
                end in
  pick rnd
    [cat [minuteStr; ":"; secondStr; " on the clock"; percentageText; "."];
     cat ["The match continues at "; minuteStr; ":"; secondStr; percentageText; "."];
     cat [minuteStr; " minute"; plural; " in"; percentageText; ", let's see who takes control."]].

(** lines 10-37 *)
Definition generateTemplateCommentary (e : NEvent) (gameState : option (list GsPlayer)) : string :=
  if isStr (ev_type e) "combo" then generateComboTemplate e
  else if isStr (ev_type e) "stockLost" then generateStockLostTemplate e
  else if isStr (ev_type e) "actionState" then generateActionStateTemplate e
  else if isStr (ev_type e) "gameStart" then generateGameStartTemplate e
  else if isStr (ev_type e) "gameEnd" then generateGameEndTemplate e gameState
  else if isStr (ev_type e) "frameUpdate" then generateFrameUpdateTemplate e
  else "The match continues!".

End Templates.

(* ===================================================================== *)
(** ** [provideLiveCommentary] with its cache (liveCommentary.js,
       lines 361-452 and [generateCacheKey], lines 560-577) *)
(* ===================================================================== *)

(** Modelled from the spec: [CACHE_EXPIRY.COMMENTARY], imported from
    [utils/constants.js], which is not among the sources; the spec gives
    the narration cache a TTL of 30 s. *)
Definition CACHE_EXPIRY_COMMENTARY : Z := 30000.

(** lines 560-577 *)
Definition generateCacheKey (rt : JsRuntime) (e : NEvent) (style : string) : string :=
  let str := jsToString rt in
  let eventType := jsOr (ev_type e) (JStr "unknown") in
  let playerIndex := if negb (isUndef (ev_playerIndex e)) then ev_playerIndex e else JStr "na" in
  let additionalKey :=
    if isStr eventType "combo" then
      cat [str (jsOr (ev_moves e) (JStr "?")); "-"; str (jsOr (ev_damage e) (JStr "?"))]
    else if isStr eventType "stockLost" then str (jsOr (ev_remainingStocks e) (JStr "?"))
    else if isStr eventType "actionState" then str (jsOr (ev_subType e) (JStr "generic"))
    else "default" in
  cat [str eventType; "-"; str playerIndex; "-"; additionalKey; "-"; style].

(** What [await llmProvider.generateCompletion(...)] does: resolve with a
    text, or reject (transport error, non-2xx, timeout, malformed
    response: every provider throws on these). *)
Inductive ProviderOutcome :=
| ProvReturns (text : string)
| ProvFails.

(** [commentaryCache]: key -> (commentary, timestamp). *)
Abbreviation Cache := (gmap string (string * Z)).

(** What the code after [await llmProvider.generateCompletion(...)]
    (line 428) reads: the outcome of the promise, the event, the key and
    the template inputs of the fallback. *)
Record Awaited := mkAwaited {
  aw_outcome : ProviderOutcome;
  aw_event : NEvent;
  aw_cacheKey : string;
  aw_gameState : option (list GsPlayer);
  aw_rnd : nat
}.

(** How the synchronous part of a call ends: it returned, or it called
    the provider and waits at line 428. *)
Inductive CallStart :=
| Returned (out : string)
| Awaiting (a : Awaited).

(** Lines 377-428 of [provideLiveCommentary(llmProvider, events,
    options)], run synchronously when it is called: [provider] is [None]
    for a null provider; [now] is [Date.now()] of this run (the cache
    check and the template write); [rnd] is the template draw. *)
Definition startCommentary (rt : JsRuntime) (provider : option ProviderOutcome)
    (events : list NEvent) (style : string) (gameState : option (list GsPlayer))
    (now : Z) (rnd : nat) (cache : Cache) : CallStart * Cache :=
  match events with
  | [] => (Returned "", cache)
  | e :: _ =>
      let cacheKey := generateCacheKey rt e style in
      let miss (c : Cache) : CallStart * Cache :=
        match provider with
        | None =>
            let commentary := generateTemplateCommentary rt rnd e gameState in
            (Returned commentary,
             if String.eqb commentary "" then c else <[cacheKey := (commentary, now)]> c)
        | Some outcome => (Awaiting (mkAwaited outcome e cacheKey gameState rnd), c)
        end in
      match cache !! cacheKey with
      | Some (commentary, timestamp) =>
          if (now - timestamp <? CACHE_EXPIRY_COMMENTARY)%Z
          then (Returned commentary, cache)
          else miss (delete cacheKey cache)
      | None => miss cache
      end
  end.

(** Lines 428-451, run when the awaited promise settles, against the
    cache as it is then; [after] is [Date.now()] at line 438. *)
Definition resumeCommentary (rt : JsRuntime) (a : Awaited) (after : Z) (cache : Cache)
    : string * Cache :=
  match aw_outcome a with
  | ProvReturns commentary =>
      (if String.eqb commentary "" then "Exciting gameplay!" else commentary,
       if String.eqb commentary "" then cache
       else <[aw_cacheKey a := (commentary, after)]> cache)
  | ProvFails =>
      (generateTemplateCommentary rt (aw_rnd a) (aw_event a) (aw_gameState a), cache)
  end.

(** One call of [provideLiveCommentary] with nothing else running during
    its [await]: the text, the cache afterwards, and whether the provider
    was called. *)
Definition provideLiveCommentary (rt : JsRuntime) (provider : option ProviderOutcome)
    (events : list NEvent) (style : string) (gameState : option (list GsPlayer))
    (now after : Z) (rnd : nat) (cache : Cache) : string * Cache * bool :=
  match startCommentary rt provider events style gameState now rnd cache with
  | (Returned out, c) => (out, c, false)
  | (Awaiting a, c) => let '(out, c') := resumeCommentary rt a after c in (out, c', true)
  end.

(** Calls of [provideLiveCommentary] that overlap: the module-level
    [commentaryCache] and the calls waiting at their [await]. *)
Record NState := mkNState {
  ncache : Cache;
  awaiting : list Awaited
}.

(** A scheduling step: a new call runs its synchronous part at [now], or
    the promise of the [i]-th waiting call settles and its continuation
    runs at [now] (promises settle in any order). *)
Inductive NStep :=
| NCall (provider : option ProviderOutcome) (events : list NEvent) (style : string)
    (gameState : option (list GsPlayer)) (rnd : nat) (now : Z)
| NResume (i : nat) (now : Z).

(** What a step shows: a call returned at once (with the key of its
    first event, [None] for no events), a call invoked the provider, or a
    waiting call returned. *)
Inductive NObs :=
| ObsReturned (cacheKey : option string) (out : string)
| ObsCalled (cacheKey : string)
| ObsResolved (cacheKey : string) (out : string).

Definition nstep (rt : JsRuntime) (st : NStep) (s : NState) : NState * list NObs :=
  match st with
  | NCall provider events style gameState rnd now =>
      match startCommentary rt provider events style gameState now rnd (ncache s) with
      | (Returned out, c) =>
          (mkNState c (awaiting s),
           [ObsReturned (match events with
                         | e :: _ => Some (generateCacheKey rt e style)
                         | [] => None
                         end) out])
      | (Awaiting a, c) => (mkNState c (awaiting s ++ [a]), [ObsCalled (aw_cacheKey a)])
      end
  | NResume i now =>
      match awaiting s !! i with
      | None => (s, [])
      | Some a =>
          let '(out, c) := resumeCommentary rt a now (ncache s) in
          (mkNState c (delete i (awaiting s)), [ObsResolved (aw_cacheKey a) out])
      end
  end.

Fixpoint runSchedule (rt : JsRuntime) (sched : list NStep) (s : NState) : NState * list NObs :=
  match sched with
  | [] => (s, [])
  | st :: rest =>
      let '(s1, o1) := nstep rt st s in
      let '(s2, o2) := runSchedule rt rest s1 in
      (s2, o1 ++ o2)
  end.

(** A call step runs before [deadline]. *)
Definition callBefore (deadline : Z) (st : NStep) : Prop :=
  match st with
  | NCall _ _ _ _ _ now => (now < deadline)%Z
  | NResume _ _ => True
  end.

(* ===================================================================== *)
(** ** [calculatePerformanceRating] (aiCoaching.js, lines 169-215) *)
(* ===================================================================== *)

(** [damagePerStock]: a finite number or [Infinity]. *)
Inductive DamagePerStock :=
| DFin (q : Q)
| DInfinity.

(** The [score] of the result (the [insight] text is not modelled).
    Arguments are JS values: anything but a non-NaN number takes the
    guard of line 171. *)
Definition calculatePerformanceRating (damageDealt stocksLost : JsVal) : Z :=
  match damageDealt, stocksLost with
  | JNum d, JNum s =>
      let damagePerStock :=
        if negb (Qle_bool s 0) then DFin (d / s)
        else if negb (Qle_bool d 0) then DInfinity else DFin 0 in
      match damagePerStock with
      | DInfinity => 10
      | DFin dps =>
          if Qeq_bool dps 0 && negb (Qle_bool s 0) then 1
          else if Qeq_bool dps 0 && Qeq_bool s 0 then 5
          else Z.min 10 (Z.max 1 (Qfloor (dps / 20)))
      end
  | _, _ => 5
  end%Z.

(* ===================================================================== *)
(** ** Sample inputs *)
(* ===================================================================== *)

Definition sampleRoster : list RosterPlayer :=
  [mkRosterPlayer 0 1 "Fox"; mkRosterPlayer 1 2 "Marth"].

(** A frame where both players are present with the given stock counts
    (at 0%, action state [null]). *)
Definition stockFrame (f k0 k1 : Z) : Frame :=
  mkFrame f (Some [Some (mkPlayerFrame (Some (mkPostFrame (Some k0) 0 None)));
                   Some (mkPlayerFrame (Some (mkPostFrame (Some k1) 0 None)))]).








(** The STOCK_LOSS timestamp recorded for match [fp], if the match has a
    state. *)
Definition slTime (fp : string) (g : gmap string GameState) : option (option Z) :=
  (fun gs => lastEventTimes gs !! "STOCK_LOSS") <$> g !! fp.





(** A runtime and a combo event for concrete narration runs. *)
Definition sampleRuntime : JsRuntime :=
  mkJsRuntime (fun _ => "n") (fun _ => "n") (fun _ => None) (fun _ => JUndef).

Definition sampleComboEvent : NEvent :=
  mkNEvent (JStr "combo") (JNum 0) (JNum 4) (JNum 50) JUndef (JStr "Fox") (JBool true)
    JUndef JUndef JUndef None JUndef JUndef JUndef JUndef JUndef None.

(** A call narrating [sampleComboEvent] in the technical style. *)
Definition sampleCall (provider : option ProviderOutcome) (now : Z) : NStep :=
  NCall provider [sampleComboEvent] "technical" None 0 now.

(** Two overlapping calls for the same combo at 1000 and 1100 ms: both
    miss and call the provider.  The second settles first (2000 ms) and a
    call at 2500 ms gets its text; then the first settles (3000 ms) and a
    call at 4000 ms gets the first one's text. *)
Definition sampleOverlap : list NStep :=
  [sampleCall (Some (ProvReturns "A")) 1000; sampleCall (Some (ProvReturns "B")) 1100;
   NResume 1 2000; sampleCall (Some ProvFails) 2500; NResume 0 3000;
   sampleCall (Some ProvFails) 4000].

(** An [actionState] event object as [generateTemplateCommentary] reads
    it ([details.techType], [details.aerial]; no [playerCharacter]). *)
Definition actionEventObj (ev : ActionEvent) : NEvent :=
  mkNEvent (JStr "actionState") (JNum (inject_Z (Z.of_nat (ae_playerIndex ev))))
    JUndef JUndef JUndef JUndef JUndef (JStr (ae_subType ev))
    (match ae_details ev with TechDetails t => JStr t | _ => JUndef end)
    (match ae_details ev with AerialDetails a => JStr a | _ => JUndef end)
    None JUndef JUndef JUndef JUndef (JNum (inject_Z (ae_frame ev))) None.

(* ===================================================================== *)
(** ** The [gameEnd] event of [_handleGameEnd] (lines 744-775) *)
(* ===================================================================== *)

(** [_.get(endTypes, gameEnd.gameEndMethod) || "Unknown"]: the keys of
    [endTypes] are ["1"], ["2"] and ["7"]; a number or a plain string is
    looked up as that key. *)
Definition endMessageOf (gameEndMethod : JsVal) : string :=
  match gameEndMethod with
  | JNum q =>
      if Qeq_bool q 1 then "TIME!" else if Qeq_bool q 2 then "GAME!"
      else if Qeq_bool q 7 then "No Contest" else "Unknown"
  | JStr s =>
      if String.eqb s "1" then "TIME!" else if String.eqb s "2" then "GAME!"
      else if String.eqb s "7" then "No Contest" else "Unknown"
  | _ => "Unknown"
  end.

(** The object queued at lines 761-766, as the narration layer reads it. *)
Definition gameEndEventObj (gameEndMethod lrasInitiatorIndex : JsVal)
    (latestFrameProcessed : Z) : NEvent :=
  mkNEvent (JStr "gameEnd") JUndef JUndef JUndef JUndef JUndef JUndef JUndef JUndef JUndef
    None JUndef (JStr (endMessageOf gameEndMethod))
    (if jsStrictEq gameEndMethod (JNum 7) then lrasInitiatorIndex else JUndef)
    JUndef (JNum (inject_Z latestFrameProcessed)) None.

(* ===================================================================== *)
(** ** The cache of the [provideLiveCommentary] of liveCommentary.js,
       lines 85-195 *)
(* ===================================================================== *)

(** [commentaryCache] (line 86), a [Map]: its entries in insertion
    order, key -> (commentary, timestamp). *)
Abbreviation OrderedCache := (list (string * (string * Z))).

(** [commentaryCache.get(k)] *)
Definition ocLookup (k : string) (c : OrderedCache) : option (string * Z) :=
  option_map snd (List.find (fun kv => String.eqb (fst kv) k) c).

(** [commentaryCache.delete(k)] *)
Definition ocDelete (k : string) (c : OrderedCache) : OrderedCache :=
  List.filter (fun kv => negb (String.eqb (fst kv) k)) c.

(** [commentaryCache.set(k, v)]: an existing key keeps its place. *)
Definition ocSet (k : string) (v : string * Z) (c : OrderedCache) : OrderedCache :=
  if existsb (fun kv => String.eqb (fst kv) k) c
  then map (fun kv => if String.eqb (fst kv) k then (k, v) else kv) c
  else c ++ [(k, v)].

(** [[...commentaryCache.keys()].sort((a, b) => ts(a) - ts(b))[0]]: the
    sort is stable, so this is the first entry with the least timestamp. *)
Fixpoint oldestEntry (c : OrderedCache) : option (string * (string * Z)) :=
  match c with
  | [] => None
  | kv :: rest =>
      match oldestEntry rest with
      | Some m => if (snd (snd m) <? snd (snd kv))%Z then Some m else Some kv
      | None => Some kv
      end
  end.

(** Lines 150-158: the write of a local-LLM result at [Date.now()] =
    [now], and the trim. *)
Definition cacheWrite (cacheKey commentary : string) (now : Z) (c : OrderedCache) : OrderedCache :=
  if String.eqb commentary "" then c
  else
    let c1 := ocSet cacheKey (commentary, now) c in
    if Nat.ltb 100 (length c1) then
      match oldestEntry c1 with
      | Some kv => ocDelete (fst kv) c1
      | None => c1
      end
    else c1.

(** The cache is touched only by the removal of an expired entry
    (line 121) and by the write (lines 150-157), neither of which awaits
    in between, so every interleaving of concurrent calls is a sequence
    of these steps (any deletion is allowed, not only of expired keys). *)
Inductive OCStep : OrderedCache -> OrderedCache -> Prop :=
| OC_expire k c : OCStep c (ocDelete k c)
| OC_write k t now c : OCStep c (cacheWrite k t now c).

Inductive OCReachable : OrderedCache -> Prop :=
| OCR_init : OCReachable []
| OCR_step c c' : OCReachable c -> OCStep c c' -> OCReachable c'.

(* ===================================================================== *)
(** ** Sample inputs of the further properties *)
(* ===================================================================== *)

(** Two frames, the first turning player 0's state into a shield and the
    second into a grab, 1 s apart: only the shield is queued. *)
Definition actionFrame (f st : Z) : Frame :=
  mkFrame f (Some [Some (mkPlayerFrame (Some (mkPostFrame (Some 4%Z) 0 (Some st))))]).

Definition sampleShieldGrabRun : list (Z * option Frame * Frame) :=
  [(10000%Z, Some (actionFrame 10 0x14), actionFrame 11 SHIELD);
   (11000%Z, Some (actionFrame 11 SHIELD), actionFrame 12 GRAB)].

(** The state with four events queued for a new game. *)
Definition sampleFourQueued : BState :=
  Nat.iter 4 (addPendingB "g.slp") (newGame "g.slp" initBState).

(** A stock loss of Fox, then one of Marth at the same index and stock
    count. *)
Definition sampleStockLostFox : NEvent :=
  mkNEvent (JStr "stockLost") (JNum 0) JUndef JUndef (JNum 3) (JStr "Fox") (JBool true)
    JUndef JUndef JUndef None JUndef JUndef JUndef JUndef JUndef None.

Definition sampleStockLostMarth : NEvent :=
  mkNEvent (JStr "stockLost") (JNum 0) JUndef JUndef (JNum 3) (JStr "Marth") (JBool false)
    JUndef JUndef JUndef None JUndef JUndef JUndef JUndef JUndef None.

(** Two writes of different keys into an empty cache. *)
Definition sampleOrderedCache : OrderedCache :=
  cacheWrite "b" "Nice" 20 (cacheWrite "a" "Wow" 10 []).

(** A full cache of 100 entries, keys "a", "aa", ..., written at time 0. *)
Definition sampleFullCache : OrderedCache :=
  map (fun n => (String.string_of_list_ascii (repeat (Ascii.ascii_of_nat 97) n), ("x", 0%Z))) (seq 1 100).

(** A runtime whose [Number] leaves numbers unchanged, and a heartbeat at
    frame 4000. *)
Definition sampleNumRuntime : JsRuntime :=
  mkJsRuntime (fun _ => "n") (fun _ => "n")
    (fun v => match v with JNum q => Some q | _ => None end) (fun _ => JUndef).

Definition sampleFrameEvent : NEvent :=
  mkNEvent (JStr "frameUpdate") JUndef JUndef JUndef JUndef JUndef JUndef
    JUndef JUndef JUndef None JUndef JUndef JUndef JUndef (JNum (inject_Z 4000)) None.

(* ===================================================================== *)
(** ** Predicates used in the proofs *)
(* ===================================================================== *)

(** The throttle state of one (match, class) pair agrees in two maps. *)
Definition throttleAgree (fp et : string) (g1 g2 : gmap string GameState) : Prop :=
  lastTriggeredOf et fp g1 = lastTriggeredOf et fp g2 /\
  (g1 !! fp = None <-> g2 !! fp = None).

(** The NEUTRAL_EXCHANGE class was admitted inside the window that
    starts at [a]. *)
Definition neBlocked (a : Z) (gs : GameState) : Prop :=
  exists t, lastEventTimes gs !! "NEUTRAL_EXCHANGE" = Some t /\ (a <= t < a + 5000)%Z.

(** [c] events were queued before; at most one in all, and if one, the
    class is blocked for the rest of the window. *)
Definition oneInWindow (a : Z) (c : nat) (acc : GameState * list ActionEvent) : Prop :=
  c + length acc.2 = 0 \/ (c + length acc.2 = 1 /\ neBlocked a acc.1).

(** The shape of a queued action-state event. *)
Definition detectedShape (ev : ActionEvent) : Prop :=
  In (ae_subType ev) ["tech"; "shield"; "grab"; "recovery"; "aerial"] /\
  (ae_subType ev = "aerial" ->
     exists nm, ae_details ev = AerialDetails nm /\
       In nm ["neutral air"; "forward air"; "back air"; "up air"; "down air"; "aerial"]).

(** [acc'] extends the queue of [acc] with events of that shape. *)
Definition extendsShaped (acc acc' : GameState * list ActionEvent) : Prop :=
  exists l, acc'.2 = acc.2 ++ l /\ List.Forall detectedShape l.



(** A step's observation agrees with key [k] being served from an entry
    with text [t]: a call with key [k] that returned at once returned
    [t], and no call with key [k] called the provider or settled. *)
Definition servedFrom (k t : string) (o : NObs) : Prop :=
  match o with
  | ObsReturned (Some k') out => k' = k -> out = t
  | ObsReturned None _ => True
  | ObsCalled k' => k' <> k
  | ObsResolved k' _ => k' <> k
  end.

(** The ids released or queued in a state. *)
Definition presentIds (s : BState) : list nat := releasedIds s ++ allQueued (pendingEvents s).

(* ===================================================================== *)
(** * Properties *)
(* ===================================================================== *)

(* --------------------------------------------------------------------- *)
(** ** Throttling *)
(* --------------------------------------------------------------------- *)

Section Throttling.
Variable fp : string.

Local Abbreviation slTime := (slTime fp).

Lemma canTrigger_other_call t et' p g :
  ~ (p = fp /\ et' = "STOCK_LOSS") ->
  slTime (snd (_canTriggerEventType t et' p g)) = slTime g.
Proof.
  intros Hne. unfold _canTriggerEventType, slTime.
  destruct (EVENT_PRIORITIES et'); [|done].
  destruct (_ <? _)%Z; [done|].
  destruct (g !! p) as [gs|] eqn:Hp; [|done]. simpl.
  destruct (decide (p = fp)) as [->|Hpf].
  - rewrite lookup_insert_eq, Hp. simpl. f_equal.
    rewrite lookup_insert_ne; [done|]. intros ->. tauto.
  - rewrite lookup_insert_ne; done.
Qed.

Lemma canTrigger_sl_call t g gs :
  g !! fp = Some gs ->
  _canTriggerEventType t "STOCK_LOSS" fp g =
    if (t - default 0 (lastEventTimes gs !! "STOCK_LOSS") <? 1000)%Z then (false, g)
    else (true, <[fp := set_lastEventTimes
                          (<[("STOCK_LOSS")%string := t]> (lastEventTimes gs)) gs]> g).
Proof. intros H. unfold _canTriggerEventType, lastTriggeredOf. simpl. by rewrite H. Qed.

Lemma count_after_admission calls g a ti :
  slTime g = Some (Some ti) -> (a <= ti)%Z ->
  (forall t et' p, In (t, et', p) calls -> p = fp -> et' = "STOCK_LOSS" ->
     (a <= t < a + 1000)%Z) ->
  count_admitted fp "STOCK_LOSS" calls g = 0.
Proof.
  revert g. induction calls as [|[[t et'] p] rest IH]; intros g Hsl Ha Hwin; [done|].
  simpl. destruct (decide (p = fp /\ et' = "STOCK_LOSS")) as [[-> ->]|Hne].
  - unfold slTime in Hsl.
    destruct (g !! fp) as [gs|] eqn:Hg; [|discriminate]. simpl in Hsl.
    injection Hsl as Hsl.
    rewrite (canTrigger_sl_call t g gs Hg), Hsl. simpl.
    assert (a <= t < a + 1000)%Z as Ht by (apply (Hwin t "STOCK_LOSS" fp); auto; left; done).
    replace (t - ti <? 1000)%Z with true by (symmetry; apply Z.ltb_lt; lia).
    simpl. apply (IH g); [|done|]. { unfold slTime. by rewrite Hg, <- Hsl. }
    intros. eapply Hwin; [right|..]; eauto.
  - destruct (_canTriggerEventType t et' p g) as [ok g'] eqn:E.
    assert (Hg' : slTime g' = slTime g).
    { change g' with (snd (ok, g')). rewrite <- E. by apply canTrigger_other_call. }
    replace (ok && String.eqb et' "STOCK_LOSS" && String.eqb p fp) with false.
    2:{ destruct ok; simpl; [|done].
        destruct (String.eqb_spec et' "STOCK_LOSS"), (String.eqb_spec p fp); simpl; auto.
        all: exfalso; tauto. }
    simpl. apply (IH g'); [congruence|done|].
    intros. eapply Hwin; [right|..]; eauto.
Qed.

Lemma count_in_window calls g a :
  is_Some (g !! fp) ->
  (forall t et' p, In (t, et', p) calls -> p = fp -> et' = "STOCK_LOSS" ->
     (a <= t < a + 1000)%Z) ->
  count_admitted fp "STOCK_LOSS" calls g <= 1.
Proof.
  revert g. induction calls as [|[[t et'] p] rest IH]; intros g [gs Hg] Hwin; simpl; [lia|].
  assert (Hrest : forall t' et'' p', In (t', et'', p') rest -> p' = fp ->
            et'' = "STOCK_LOSS" -> (a <= t' < a + 1000)%Z).
  { intros. eapply Hwin; [right|..]; eauto. }
  destruct (decide (p = fp /\ et' = "STOCK_LOSS")) as [[-> ->]|Hne].
  - rewrite (canTrigger_sl_call t g gs Hg).
    destruct (_ <? 1000)%Z; simpl.
    + apply IH; [eexists; done|done].
    + rewrite String.eqb_refl. simpl.
      rewrite (count_after_admission rest _ a t); [lia| |..|done].
      * unfold slTime. rewrite lookup_insert_eq. simpl. by rewrite lookup_insert_eq.
      * apply (Hwin t "STOCK_LOSS" fp); auto. left. done.
  - destruct (_canTriggerEventType t et' p g) as [ok g'] eqn:E.
    assert (Hg' : slTime g' = slTime g).
    { change g' with (snd (ok, g')). rewrite <- E. by apply canTrigger_other_call. }
    replace (ok && String.eqb et' "STOCK_LOSS" && String.eqb p fp) with false.
    2:{ destruct ok; simpl; [|done].
        destruct (String.eqb_spec et' "STOCK_LOSS"), (String.eqb_spec p fp); simpl; auto.
        all: exfalso; tauto. }
    simpl. apply IH; [|done].
    unfold slTime in Hg'. rewrite Hg in Hg'.
    destruct (g' !! fp); [eexists; done|discriminate].
Qed.

End Throttling.

(** C1: [_canTriggerEventType] is a per-(match, class) rate limiter.  For
    a tracked match [fp] and a throttled class with threshold [threshold],
    a query at time [now] is admitted iff [now] minus the class's recorded
    last-admission time (0 if none) is at least [threshold]; on admission
    that time, and only that entry, becomes [now]; a rejection changes
    nothing.  Consequently, over any sequence of queries (for any classes
    and matches), at most one STOCK_LOSS query of [fp] is admitted when all
    of them fall within a window shorter than 1000 ms. *)
Theorem C1_per_match_class_throttle (fp : string) (g : gmap string GameState)
    (gs : GameState) :
  g !! fp = Some gs ->
  EVENT_PRIORITIES "STOCK_LOSS" = Some 1000%Z /\
  (forall now et threshold, EVENT_PRIORITIES et = Some threshold ->
     let res := _canTriggerEventType now et fp g in
     (fst res = true <->
        (threshold <= now - default 0 (lastEventTimes gs !! et))%Z) /\
     (fst res = true ->
        snd res = <[fp := set_lastEventTimes (<[et := now]> (lastEventTimes gs)) gs]> g) /\
     (fst res = false -> snd res = g)) /\
  (forall calls a,
     (forall t et p, In (t, et, p) calls -> p = fp -> et = "STOCK_LOSS" ->
        (a <= t < a + 1000)%Z) ->
     count_admitted fp "STOCK_LOSS" calls g <= 1).
Proof.
  intros Hg. split; [done|]. split.
  - intros now et threshold Hth. unfold _canTriggerEventType, lastTriggeredOf.
    rewrite Hth, Hg.
    destruct (Z.ltb_spec (now - default 0%Z (lastEventTimes gs !! et))%Z threshold);
      simpl; repeat split; try done; try lia.
  - intros calls a Hwin. apply (count_in_window fp calls g a); [eexists; done|done].
Qed.

(* --------------------------------------------------------------------- *)
(** ** End-of-game stock accounting *)
(* --------------------------------------------------------------------- *)

(** C2 (code_bug): both players lose a stock on the same frame.  The
    first loss takes the STOCK_LOSS admission slot; the second is dropped
    by the throttle before [_handleStockLost] records it, so the summary
    reports 0 stocks lost for player 1 although the tracker saw its stock
    count go from 4 to 3. *)
Theorem C2_summary_misses_throttled_stock_loss :
  let s := runFrames [(5000%Z, stockFrame 100 3 3, None)] (gameStarted sampleRoster 8) in
  lastStockCounts (gst s) !! 1%nat = Some 3%Z /\
  _generateGameAnalysis (gst s) =
    Some [mkSummaryRow 0 1 0; mkSummaryRow 0 0 0].
Proof. vm_compute. split; reflexivity. Qed.

(* --------------------------------------------------------------------- *)
(** ** Heartbeat, tracked stocks: counterexamples *)
(* --------------------------------------------------------------------- *)



(* --------------------------------------------------------------------- *)
(** ** Performance rating: counterexample *)
(* --------------------------------------------------------------------- *)

(** C8 (counterexample): no stocks lost and no damage dealt gives the
    neutral score 5, not 10. *)
Theorem C8_rating_counterexample :
  calculatePerformanceRating (JNum 0) (JNum 0) = 5%Z.
Proof. reflexivity. Qed.

Lemma rating_range v w : (1 <= calculatePerformanceRating v w <= 10)%Z.
Proof.
  destruct v, w; simpl; try lia.
  destruct (Qle_bool q0 0), (Qle_bool q 0); simpl;
    repeat match goal with |- context [Qeq_bool ?a ?b] => destruct (Qeq_bool a b) end;
    simpl; lia.
Qed.

(** C8 (amended): for numeric inputs with [stocksLost >= 0] (a count):
    no stocks lost and positive damage gives 10 (Infinity damage per
    stock); no stocks lost and no positive damage gives 5; stocks lost
    with zero damage gives 1; with stocks lost the score is
    [clamp(floor((damageDealt/stocksLost)/20), 1, 10)]; and for all
    inputs, numeric or not, the score lies in 1..10. *)
Theorem C8_rating_amended (d s : Q) (Hs : (0 <= s)%Q) :
  let r := calculatePerformanceRating (JNum d) (JNum s) in
  ((s == 0)%Q -> (0 < d)%Q -> r = 10%Z) /\
  ((s == 0)%Q -> (d <= 0)%Q -> r = 5%Z) /\
  ((0 < s)%Q -> (d == 0)%Q -> r = 1%Z) /\
  ((0 < s)%Q -> r = Z.min 10 (Z.max 1 (Qfloor (d / s / 20)))) /\
  (forall v w, (1 <= calculatePerformanceRating v w <= 10)%Z).
Proof.
  cbv zeta. split; [|split; [|split; [|split]]]; [| | | |exact rating_range];
    unfold calculatePerformanceRating.
  - intros Hs0 Hd.
    rewrite (proj2 (Qle_bool_iff s 0) (proj2 (Qle_lteq s 0) (or_intror Hs0))).
    destruct (Qle_bool d 0) eqn:Hd0; [|reflexivity].
    apply Qle_bool_iff in Hd0. exfalso. exact (Qlt_not_le _ _ Hd Hd0).
  - intros Hs0 Hd.
    rewrite (proj2 (Qle_bool_iff s 0) (proj2 (Qle_lteq s 0) (or_intror Hs0))).
    rewrite (proj2 (Qle_bool_iff d 0) Hd). simpl.
    rewrite (proj2 (Qeq_bool_iff s 0) Hs0). reflexivity.
  - intros Hpos Hd.
    destruct (Qle_bool s 0) eqn:Hs0.
    { apply Qle_bool_iff in Hs0. exfalso. exact (Qlt_not_le _ _ Hpos Hs0). }
    simpl. replace (Qeq_bool (d / s) 0) with true; [reflexivity|].
    symmetry. apply Qeq_bool_iff. rewrite Hd. unfold Qdiv. apply Qmult_0_l.
  - intros Hpos.
    destruct (Qle_bool s 0) eqn:Hs0.
    { apply Qle_bool_iff in Hs0. exfalso. exact (Qlt_not_le _ _ Hpos Hs0). }
    cbn [negb andb]. destruct (Qeq_bool (d / s) 0) eqn:Hz; cbn [andb]; [|reflexivity].
    apply Qeq_bool_iff in Hz.
    assert (Hf : Qfloor (d / s / 20) = 0%Z) by (rewrite Hz; reflexivity).
    rewrite Hf. reflexivity.
Qed.

(** A use of C8 at (120 damage, 2 stocks lost): the score is 3. *)
Lemma C8_rating_amended_witness :
  (0 <= 2)%Q /\ calculatePerformanceRating (JNum 120) (JNum 2) = 3%Z.
Proof.
  split; [vm_compute; discriminate|].
  destruct (C8_rating_amended 120 2 ltac:(vm_compute; discriminate))
    as (_ & _ & _ & H & _).
  rewrite (H ltac:(vm_compute; reflexivity)). reflexivity.
Defined.

(** C9: when a stock loss is detected for player [i] (current stocks
    [cur] below the tracked [prev]), the handler completes; if the
    STOCK_LOSS throttle admits it, exactly one stockLost event is queued
    and recorded, and its [remainingStocks] is [Some prev], the tracked
    pre-loss count, not [cur]; if throttled nothing is queued or recorded;
    in both cases the tracked count becomes [cur] only afterwards. *)
Theorem C9_remaining_is_pre_loss (now : Z) (fr : Frame) (i : nat) (pf : PostFrame)
    (cur prev : Z) (s : St) :
  stocksRemaining pf = Some cur ->
  lastStockCounts (gst s) !! i = Some prev ->
  (cur < prev)%Z ->
  let res := checkStockOf now fr i (Some (mkPlayerFrame (Some pf))) s in
  let s' := fst res in
  snd res = Some tt /\
  (fst (canTrigger now "STOCK_LOSS" (gst s)) = true ->
     pending s' = pending s ++
       [EvStockLost i (prev - cur) (Some prev) (characterOf (gst s) i) (frame fr)] /\
     stockEvents (gst s') = stockEvents (gst s) ++
       [mkStockEvent now (frame fr) i (prev - cur) (Some prev)]) /\
  (fst (canTrigger now "STOCK_LOSS" (gst s)) = false ->
     pending s' = pending s /\ stockEvents (gst s') = stockEvents (gst s)) /\
  lastStockCounts (gst s') !! i = Some cur /\
  Some prev <> Some cur.
Proof.
  intros Hc Hp Hlt. cbv zeta.
  unfold checkStockOf, _handleStockLost, throttle, getGS, modifyGS, addPending,
    mbind, M_bind, mret, M_ret; cbn [post]. rewrite Hc. cbn [gst].
  rewrite Hp. rewrite (proj2 (Z.ltb_lt cur prev) Hlt).
  destruct (canTrigger now "STOCK_LOSS" (gst s)) as [ok gs1] eqn:Hct.
  assert (Hgs1 : lastStockCounts gs1 = lastStockCounts (gst s) /\
                 players gs1 = players (gst s) /\ stockEvents gs1 = stockEvents (gst s)).
  { unfold canTrigger in Hct. simpl in Hct.
    destruct (_ <? 1000)%Z; injection Hct as <- <-; auto. }
  destruct Hgs1 as (HL & HP & HS).
  destruct ok; cbn.
  - rewrite HL, Hp. unfold characterOf. rewrite HP.
    repeat split; try congruence.
    all: rewrite ?HS, ?lookup_insert_eq; try reflexivity; try (intros [=]; lia).
  - repeat split; try congruence.
    all: rewrite ?HS, ?lookup_insert_eq; try reflexivity; try (intros [=]; lia).
Qed.

(** A use of C9: Fox goes from 4 to 3 stocks on frame 100 of a fresh match. *)
Lemma C9_remaining_is_pre_loss_witness :
  stocksRemaining (mkPostFrame (Some 3%Z) 0 None) = Some 3%Z /\
  lastStockCounts (gst (gameStarted sampleRoster 8)) !! 0%nat = Some 4%Z /\
  (3 < 4)%Z /\
  pending (fst (checkStockOf 5000 (stockFrame 100 3 4) 0
                  (Some (mkPlayerFrame (Some (mkPostFrame (Some 3%Z) 0 None))))
                  (gameStarted sampleRoster 8))) =
    pending (gameStarted sampleRoster 8) ++
      [EvStockLost 0 1 (Some 4%Z) "Fox" 100].
Proof.
  split; [reflexivity|split; [reflexivity|split; [lia|]]].
  destruct (C9_remaining_is_pre_loss 5000 (stockFrame 100 3 4) 0
              (mkPostFrame (Some 3%Z) 0 None) 3 4 (gameStarted sampleRoster 8)
              eq_refl eq_refl ltac:(lia)) as (_ & Hadm & _).
  exact (proj1 (Hadm eq_refl)).
Defined.

(** A use of C1: two STOCK_LOSS queries 200 ms apart on one match; at most
    one is admitted. *)
Lemma C1_per_match_class_throttle_witness :
  ({[ "game.slp" := gst (gameStarted sampleRoster 8) ]} : gmap string GameState) !! "game.slp"
    = Some (gst (gameStarted sampleRoster 8)) /\
  count_admitted "game.slp" "STOCK_LOSS"
    [(5000%Z, "STOCK_LOSS", "game.slp"); (5200%Z, "STOCK_LOSS", "game.slp")]
    ({[ "game.slp" := gst (gameStarted sampleRoster 8) ]} : gmap string GameState) <= 1.
Proof.
  split; [apply lookup_singleton_eq|].
  destruct (C1_per_match_class_throttle "game.slp"
              ({[ "game.slp" := gst (gameStarted sampleRoster 8) ]} : gmap string GameState)
              (gst (gameStarted sampleRoster 8)) (lookup_singleton_eq _ _)) as (_ & _ & Hw).
  apply (Hw _ 5000%Z).
  intros t et p [H|[H|[]]]; injection H as <- <- <-; intros _ _; lia.
Defined.

Lemma canTrigger_only_times now et gs :
  exists m, snd (canTrigger now et gs) = set_lastEventTimes m gs.
Proof.
  unfold canTrigger. destruct (EVENT_PRIORITIES et); [destruct (_ <? _)%Z|];
    simpl; eauto; exists (lastEventTimes gs); destruct gs; reflexivity.
Qed.

Lemma processCombo_step now c s :
  snd (processCombo now c s) = Some tt /\
  comboEvents (gst (fst (processCombo now c s))) = comboEvents (gst s) ++ [comboRecordOf c] /\
  exists l', pending (fst (processCombo now c s)) = pending s ++ l' /\ length l' <= 1.
Proof.
  unfold processCombo, getGS, modifyGS, throttle, addPending, mbind, M_bind, mret, M_ret.
  cbn [gst pending].
  match goal with |- context [canTrigger now ?et ?g] =>
    destruct (canTrigger_only_times now et g) as [m Hm];
    destruct (canTrigger now et g) as [ok g1] eqn:Hct end.
  simpl in Hm. subst g1.
  destruct ok; simpl; (split; [done|split; [done|]]).
  - eexists. split; [reflexivity|simpl; lia].
  - exists []. rewrite app_nil_r. split; [reflexivity|simpl; lia].
Qed.

Lemma forEach_processCombo now l s :
  snd (forEachM (processCombo now) l s) = Some tt /\
  comboEvents (gst (fst (forEachM (processCombo now) l s))) =
    comboEvents (gst s) ++ map comboRecordOf l /\
  exists l', pending (fst (forEachM (processCombo now) l s)) = pending s ++ l' /\
             length l' <= length l.
Proof.
  revert s. induction l as [|c l IH]; intros s.
  { simpl. rewrite app_nil_r. split; [done|split; [done|]]. exists []. rewrite app_nil_r. split; [done|simpl; lia]. }
  cbn [forEachM]. unfold mbind, M_bind.
  destruct (processCombo_step now c s) as (E1 & E2 & k & E3 & E4).
  destruct (processCombo now c s) as [s1 o]. simpl in E1, E2, E3. subst o. cbv beta iota.
  destruct (IH s1) as (H1 & H2 & l' & H3 & H4).
  split; [exact H1|split].
  - rewrite H2, E2, <- app_assoc. reflexivity.
  - exists (k ++ l'). rewrite H3, E3, app_assoc. split; [reflexivity|].
    rewrite length_app. simpl. lia.
Qed.

Lemma comboCountFor_app idx l1 l2 :
  comboCountFor idx (l1 ++ l2) = comboCountFor idx l1 + comboCountFor idx l2.
Proof. unfold comboCountFor. rewrite List.filter_app, length_app. reflexivity. Qed.

Lemma comboCountFor_map idx l :
  comboCountFor idx (map comboRecordOf l) =
    length (List.filter (fun c => Nat.eqb (c_playerIndex c) idx) l).
Proof.
  unfold comboCountFor. induction l as [|c l IH]; simpl; [done|].
  destruct (Nat.eqb (c_playerIndex c) idx); simpl; auto.
Qed.

Lemma fold_left_map_comm {A B C} (f : A -> B -> A) (g : C -> B) l a :
  fold_left f (map g l) a = fold_left (fun acc x => f acc (g x)) l a.
Proof. revert a. induction l; simpl; auto. Qed.

(** C10: every combo of the batch that passes the filter of lines 682-689
    (at least 2 moves, (playerIndex, startFrame) not yet recorded) is
    appended, in order, to [comboEvents], whatever the state of the
    combo-class throttle ([s] is arbitrary, including its
    [lastEventTimes]); hence the summary's per-player combo count grows by
    the number of such combos and the per-player damage total by their
    percents.  The throttle only decides which of them reach the pending
    queue: at most one queued event per new combo. *)
Theorem C10_combos_recorded_regardless_of_throttle (now : Z) (combos : list Combo) (s : St) :
  let newCombos := List.filter (isNewCombo (comboEvents (gst s))) combos in
  let res := _processNewCombos now combos s in
  snd res = Some tt /\
  comboEvents (gst (fst res)) = comboEvents (gst s) ++ map comboRecordOf newCombos /\
  Forall (fun c => exists mv, c_moves c = Some mv /\ 2 <= length mv /\
                      comboSeen (comboEvents (gst s)) c = false) newCombos /\
  (forall idx,
     comboCountFor idx (comboEvents (gst (fst res))) =
       comboCountFor idx (comboEvents (gst s)) +
       length (List.filter (fun c => Nat.eqb (c_playerIndex c) idx) newCombos) /\
     damageFor idx (comboEvents (gst (fst res))) =
       fold_left (fun acc c => if Nat.eqb (c_playerIndex c) idx
                               then (acc + comboPercent c)%Q else acc)
         newCombos (damageFor idx (comboEvents (gst s)))) /\
  (exists l, pending (fst res) = pending s ++ l /\ length l <= length newCombos).
Proof.
  cbv zeta.
  assert (Hnew : Forall (fun c => exists mv, c_moves c = Some mv /\ 2 <= length mv /\
                      comboSeen (comboEvents (gst s)) c = false)
                   (List.filter (isNewCombo (comboEvents (gst s))) combos)).
  { apply List.Forall_forall. intros c Hin. apply filter_In in Hin as [_ Hc].
    unfold isNewCombo in Hc. destruct (c_moves c) as [mv|]; [|discriminate].
    apply andb_true_iff in Hc as [H1 H2]. apply Nat.leb_le in H1.
    exists mv. split; [done|split; [lia|]]. by destruct (comboSeen _ c). }
  assert (Hsum : forall l idx,
     comboEvents (gst (fst (forEachM (processCombo now) l s))) =
       comboEvents (gst s) ++ map comboRecordOf l ->
     comboCountFor idx (comboEvents (gst (fst (forEachM (processCombo now) l s)))) =
       comboCountFor idx (comboEvents (gst s)) +
       length (List.filter (fun c => Nat.eqb (c_playerIndex c) idx) l) /\
     damageFor idx (comboEvents (gst (fst (forEachM (processCombo now) l s)))) =
       fold_left (fun acc c => if Nat.eqb (c_playerIndex c) idx
                               then (acc + comboPercent c)%Q else acc)
         l (damageFor idx (comboEvents (gst s)))).
  { intros l idx ->. rewrite comboCountFor_app, comboCountFor_map. split; [done|].
    unfold damageFor. rewrite fold_left_app, fold_left_map_comm. reflexivity. }
  destruct combos as [|c0 rest].
  - simpl. split; [done|split; [by rewrite app_nil_r|split; [constructor|split]]].
    + intros idx. simpl. split; [lia|reflexivity].
    + exists []. split; [by rewrite app_nil_r|simpl; lia].
  - unfold _processNewCombos, getGS, mbind, M_bind.
    destruct (forEach_processCombo now (List.filter (isNewCombo (comboEvents (gst s))) (c0 :: rest)) s)
      as (H1 & H2 & H3).
    split; [done|split; [done|split; [done|split]]]; [|done].
    intros idx. apply Hsum. exact H2.
Qed.










































Lemma concat_perm (l1 l2 : list (list nat)) : l1 ≡ₚ l2 -> concat l1 ≡ₚ concat l2.
Proof.
  induction 1 as [|x l l' _ IH|x y l|l l' l'' _ IH1 _ IH2]; simpl.
  - done.
  - by apply Permutation_app_head.
  - rewrite !app_assoc. apply Permutation_app_tail, Permutation_app_comm.
  - by rewrite IH1.
Qed.

Lemma aq_insert m p q : allQueued (<[p := q]> m) ≡ₚ q ++ allQueued (delete p m).
Proof.
  unfold allQueued. rewrite <- insert_delete_eq.
  rewrite (concat_perm _ _ (Permutation_map _ (map_to_list_insert _ p q ltac:(apply lookup_delete_eq)))).
  reflexivity.
Qed.

Lemma aq_lookup m p q : m !! p = Some q -> allQueued m ≡ₚ q ++ allQueued (delete p m).
Proof.
  intros H. unfold allQueued.
  rewrite <- (concat_perm _ _ (Permutation_map snd (map_to_list_delete m p q H))).
  reflexivity.
Qed.

Lemma aq_default m p : allQueued m ≡ₚ default [] (m !! p) ++ allQueued (delete p m).
Proof.
  destruct (m !! p) as [q|] eqn:E; simpl.
  - by apply aq_lookup.
  - by rewrite delete_id.
Qed.

Lemma SS_app_inv (l1 l2 : list nat) :
  StronglySorted lt (l1 ++ l2) -> StronglySorted lt l1 /\ StronglySorted lt l2.
Proof.
  induction l1 as [|x l1 IH]; simpl; intros H; [split; [constructor|done]|].
  apply StronglySorted_inv in H as [H1 H2].
  destruct (IH H1) as [A B]. split; [|done].
  constructor; [done|]. apply List.Forall_forall. intros y Hy.
  rewrite List.Forall_forall in H2. apply H2, in_or_app. left. done.
Qed.

Lemma SS_snoc (l : list nat) n :
  StronglySorted lt l -> (forall x, In x l -> x < n) -> StronglySorted lt (l ++ [n]).
Proof.
  induction l as [|x l IH]; simpl; intros H Hlt.
  - repeat constructor.
  - apply StronglySorted_inv in H as [H1 H2]. constructor.
    + apply IH; auto.
    + apply List.Forall_forall. intros y Hy. apply in_app_or in Hy as [Hy|[<-|[]]].
      * rewrite List.Forall_forall in H2. auto.
      * auto.
Qed.

Lemma BInv_init : BInv initBState.
Proof.
  unfold BInv, initBState, releasedIds, releasedOf, allQueued. simpl.
  rewrite map_to_list_empty. simpl.
  split; [intros ? []|split; [constructor|split; [intros p; rewrite lookup_empty; constructor|constructor]]].
Qed.

Lemma releasedOf_app p s b :
  releasedOf p (mkBState (pendingEvents s) (hasGame s) (intervalOn s) (nextId s) (released s ++ [b])) =
  releasedOf p s ++ (if String.eqb (fst b) p then snd b else []).
Proof.
  unfold releasedOf. simpl. rewrite List.filter_app, map_app, concat_app. simpl.
  destruct (String.eqb (fst b) p); simpl; rewrite ?app_nil_r; done.
Qed.

Lemma releasedOf_sub p s x : In x (releasedOf p s) -> In x (releasedIds s).
Proof.
  unfold releasedOf, releasedIds. rewrite !in_concat. intros (y & Hy & Hx).
  exists y. split; [|done]. apply in_map_iff in Hy as (b & <- & Hb).
  apply filter_In in Hb as [Hb _]. apply in_map. done.
Qed.

Lemma perm_in (l1 l2 : list nat) x : l1 ≡ₚ l2 -> In x l1 -> In x l2.
Proof. intros H. apply Permutation_in, H. Qed.

Lemma BInv_add p s : BInv s -> BInv (addPendingB p s).
Proof.
  intros (I1 & I2 & I3 & I4). unfold addPendingB.
  set (q := default [] (pendingEvents s !! p)).
  assert (Hp : releasedIds s ++ allQueued (<[p := q ++ [nextId s]]> (pendingEvents s)) ≡ₚ
               (releasedIds s ++ allQueued (pendingEvents s)) ++ [nextId s]).
  { rewrite aq_insert, (aq_default (pendingEvents s) p). fold q.
    rewrite <- !app_assoc. do 2 apply Permutation_app_head. apply Permutation_app_comm. }
  split; [|split; [|split]]; simpl.
  - intros x Hx. apply (perm_in _ _ _ Hp) in Hx. apply in_app_or in Hx as [Hx|[<-|[]]].
    + specialize (I1 x Hx). lia.
    + lia.
  - rewrite Hp. apply NoDup_app. split; [done|split].
    + intros x Hx Hin. apply list_elem_of_singleton in Hin. subst x.
      apply list_elem_of_In in Hx. specialize (I1 _ Hx). lia.
    + apply NoDup_singleton.
  - intros p'. destruct (decide (p' = p)) as [->|Hne].
    + rewrite lookup_insert_eq. simpl. rewrite app_assoc. apply SS_snoc; [apply I3|].
      intros x Hx. apply I1. apply in_app_or in Hx as [Hx|Hx]; apply in_or_app.
      * left. eapply releasedOf_sub. exact Hx.
      * right. apply (perm_in _ _ _ (Permutation_sym (aq_default _ p))). apply in_or_app. left. exact Hx.
    + rewrite lookup_insert_ne; [apply I3|done].
  - done.
Qed.

Lemma BInv_drain p s : BInv s -> BInv (drainKey p s).
Proof.
  intros HI. unfold drainKey.
  destruct (default [] (pendingEvents s !! p)) as [|e rest] eqn:Hq; [done|].
  destruct (decide (p ∈ hasGame s)); [|done].
  destruct HI as (I1 & I2 & I3 & I4).
  set (q := e :: rest) in *.
  assert (Hp : releasedIds (mkBState (<[p := drop PENDING_EVENTS_LIMIT q]> (pendingEvents s))
                 (hasGame s) (intervalOn s) (nextId s) (released s ++ [(p, take PENDING_EVENTS_LIMIT q)]))
               ++ allQueued (<[p := drop PENDING_EVENTS_LIMIT q]> (pendingEvents s)) ≡ₚ
               releasedIds s ++ allQueued (pendingEvents s)).
  { unfold releasedIds. cbn [released]. rewrite map_app, concat_app. cbn [map concat snd].
    rewrite app_nil_r.
    rewrite aq_insert, (aq_default (pendingEvents s) p), Hq.
    rewrite <- !app_assoc. apply Permutation_app_head. rewrite app_assoc, take_drop. done. }
  split; [|split; [|split]].
  - intros x Hx. apply (perm_in _ _ _ Hp) in Hx. simpl. auto.
  - rewrite Hp. done.
  - intros p'.
    pose proof (releasedOf_app p' s (p, take PENDING_EVENTS_LIMIT q)) as Hr.
    cbn [pendingEvents]. unfold releasedOf in Hr |- *. cbn [released] in Hr |- *. rewrite Hr.
    cbn [fst snd].
    destruct (String.eqb_spec p p') as [Heq|Hne]; [subst p'|].
    + rewrite lookup_insert_eq. cbn [default]. unfold id. rewrite <- app_assoc, take_drop.
      specialize (I3 p). rewrite ?Hq in I3. exact I3.
    + rewrite app_nil_r, lookup_insert_ne; [apply I3|done].
  - cbn [released]. apply Forall_app. split; [done|]. constructor; [|constructor].
    cbn [snd]. rewrite length_take. subst q. cbn [length]. unfold PENDING_EVENTS_LIMIT. lia.
Qed.

Lemma BInv_endTick s : BInv s -> BInv (endTick s).
Proof. unfold endTick. destruct (noPending s); done. Qed.

Lemma BInv_shrink s m :
  BInv s ->
  (exists l, allQueued (pendingEvents s) ≡ₚ l ++ allQueued m) ->
  (forall p, default [] (m !! p) = default [] (pendingEvents s !! p) \/ default [] (m !! p) = []) ->
  BInv (mkBState m (hasGame s) (intervalOn s) (nextId s) (released s)).
Proof.
  intros (I1 & I2 & I3 & I4) [l Hl] Hm.
  assert (Hp : releasedIds s ++ allQueued (pendingEvents s) ≡ₚ l ++ (releasedIds s ++ allQueued m)).
  { rewrite Hl, !app_assoc. apply Permutation_app_tail, Permutation_app_comm. }
  split; [|split; [|split]].
  - intros x Hx. apply I1. apply (perm_in _ _ _ (Permutation_sym Hp)). apply in_or_app. right. done.
  - rewrite Hp in I2. apply NoDup_app in I2 as (_ & _ & I2). exact I2.
  - intros p. unfold releasedOf. simpl. fold (releasedOf p s).
    destruct (Hm p) as [E|E]; rewrite E; [apply I3|].
    rewrite app_nil_r. exact (proj1 (SS_app_inv _ _ (I3 p))).
  - done.
Qed.

Lemma BInv_remove p s : BInv s -> BInv (removeFile p s).
Proof.
  intros HI. unfold removeFile. destruct (decide (p ∈ hasGame s)); [|done].
  apply BInv_shrink; [done| |].
  - eexists. apply aq_default.
  - intros p'. destruct (decide (p' = p)) as [->|Hne].
    + right. rewrite lookup_delete_eq. done.
    + left. rewrite lookup_delete_ne; done.
Qed.

Lemma BInv_newGame p s : BInv s -> BInv (newGame p s).
Proof.
  intros HI. unfold newGame. destruct (decide (p ∈ hasGame s)); [done|].
  destruct HI as (I1 & I2 & I3 & I4).
  assert (HI' : BInv (mkBState (<[p := []]> (pendingEvents s)) (hasGame s) (intervalOn s)
                   (nextId s) (released s))).
  { apply BInv_shrink; [split; [done|split; [done|split; done]]| |].
    - eexists. rewrite aq_insert. simpl. apply aq_default.
    - intros p'. destruct (decide (p' = p)) as [->|Hne].
      + right. rewrite lookup_insert_eq. done.
      + left. rewrite lookup_insert_ne; done. }
  destruct HI' as (J1 & J2 & J3 & J4). split; [exact J1|split; [exact J2|split; [exact J3|exact J4]]].
Qed.

Lemma BInv_stop s : BInv s -> BInv (stopB s).
Proof. intros H. exact H. Qed.

Lemma BInv_reachable s : BReachable s -> BInv s.
Proof.
  induction 1 as [|s s' _ IH Hstep]; [apply BInv_init|].
  destruct Hstep.
  - by apply BInv_add.
  - by apply BInv_drain.
  - by apply BInv_endTick.
  - by apply BInv_remove.
  - by apply BInv_newGame.
  - by apply BInv_stop.
Qed.

Lemma batch_segment s b :
  In b (released s) -> exists l1 l2, releasedOf (fst b) s = l1 ++ snd b ++ l2.
Proof.
  intros Hb. unfold releasedOf.
  assert (Hin : In b (List.filter (fun b' => String.eqb (fst b') (fst b)) (released s))).
  { apply filter_In. split; [done|]. apply String.eqb_refl. }
  apply in_split in Hin as (k1 & k2 & ->).
  rewrite map_app, concat_app. simpl.
  exists (concat (map snd k1)), (concat (map snd k2)). reflexivity.
Qed.

Lemma intervalOn_step s s' :
  BStep s s' -> intervalOn s = false -> intervalOn s' = true -> exists p, s' = addPendingB p s.
Proof.
  intros Hstep Hoff Hon. destruct Hstep as [p s|p s|s|p s|p s|s].
  - eauto.
  - exfalso. unfold drainKey in Hon.
    destruct (default [] _); [congruence|]. destruct (decide _); simpl in Hon; congruence.
  - exfalso. unfold endTick in Hon. destruct (noPending s); simpl in Hon; congruence.
  - exfalso. unfold removeFile in Hon. destruct (decide _); simpl in Hon; congruence.
  - exfalso. unfold newGame in Hon. destruct (decide _); simpl in Hon; congruence.
  - exfalso. discriminate Hon.
Qed.

(** C3: in every reachable state of the batcher (any interleaving of
    enqueues, per-match drain iterations, ends of ticks, file removals,
    new games and [stop()] calls), every released batch has 1 to 3 events; no event id is
    released twice; the ids released for a match, across all its batches
    and within each batch, are in enqueue order (ids are handed out in
    enqueue order); the timer is off initially, every enqueue leaves it
    running, a step can only switch it on by an enqueue, and the end of a
    tick that finds every queue empty switches it off. *)
Theorem C3_batcher_invariant (s : BState) :
  BReachable s ->
  List.Forall (fun b => 1 <= length (snd b) <= PENDING_EVENTS_LIMIT) (released s) /\
  NoDup (releasedIds s) /\
  (forall p, StronglySorted lt (releasedOf p s)) /\
  List.Forall (fun b => StronglySorted lt (snd b)) (released s) /\
  intervalOn initBState = false /\
  (forall p, intervalOn (addPendingB p s) = true) /\
  (noPending s = true -> intervalOn (endTick s) = false) /\
  (forall s', BStep s s' -> intervalOn s = false -> intervalOn s' = true ->
     exists p, s' = addPendingB p s).
Proof.
  intros Hr. destruct (BInv_reachable s Hr) as (I1 & I2 & I3 & I4).
  assert (Hsorted : forall p, StronglySorted lt (releasedOf p s)).
  { intros p. exact (proj1 (SS_app_inv _ _ (I3 p))). }
  split; [done|split; [|split; [done|split; [|split; [done|split; [done|split]]]]]].
  - apply NoDup_app in I2 as (I2 & _). exact I2.
  - apply List.Forall_forall. intros b Hb.
    destruct (batch_segment s b Hb) as (l1 & l2 & E).
    pose proof (Hsorted (fst b)) as H. rewrite E in H.
    apply SS_app_inv in H as [_ H]. apply SS_app_inv in H as [H _]. exact H.
  - intros Hno. unfold endTick. rewrite Hno. done.
  - apply intervalOn_step.
Qed.

(** A use of C3: a new game, one enqueue, one drain. *)
Lemma C3_batcher_invariant_witness :
  BReachable (drainKey "g.slp" (addPendingB "g.slp" (newGame "g.slp" initBState))) /\
  released (drainKey "g.slp" (addPendingB "g.slp" (newGame "g.slp" initBState))) = [("g.slp", [0])] /\
  NoDup (releasedIds (drainKey "g.slp" (addPendingB "g.slp" (newGame "g.slp" initBState)))).
Proof.
  assert (Hr : BReachable (drainKey "g.slp" (addPendingB "g.slp" (newGame "g.slp" initBState)))).
  { eapply BR_step; [|apply BS_drain]. eapply BR_step; [|apply BS_add].
    eapply BR_step; [apply BR_init|apply BS_newGame]. }
  split; [exact Hr|split; [vm_compute; reflexivity|]].
  exact (proj1 (proj2 (C3_batcher_invariant _ Hr))).
Defined.

Lemma append_nonempty_l (a b : string) : a <> "" -> a +:+ b <> "".
Proof. destruct a; [done|]. intros _. simpl. discriminate. Qed.

Lemma append_nonempty_r (a b : string) : b <> "" -> a +:+ b <> "".
Proof.
  intros Hb. induction a as [|c a IH]; simpl; [done|]. discriminate.
Qed.

Lemma cat_nonempty l : List.Exists (fun s => s <> "") l -> cat l <> "".
Proof.
  induction 1 as [x l Hx|x l _ IH]; simpl.
  - by apply append_nonempty_l.
  - by apply append_nonempty_r.
Qed.

Lemma pick_nonempty rnd l : l <> [] -> List.Forall (fun s => s <> "") l -> pick rnd l <> "".
Proof.
  intros Hl Hall. unfold pick. rewrite List.Forall_forall in Hall. apply Hall.
  apply nth_In. apply Nat.mod_upper_bound. destruct l; [done|simpl; lia].
Qed.

Ltac ne_cat :=
  apply cat_nonempty;
  repeat (first [apply List.Exists_cons_hd; discriminate | apply List.Exists_cons_tl]).

Ltac ne_tac :=
  first [ discriminate
        | ne_cat
        | apply pick_nonempty; [discriminate|];
          repeat (apply List.Forall_cons; [ne_cat|]); apply List.Forall_nil ].

Lemma template_nonempty rt rnd e gameState :
  generateTemplateCommentary rt rnd e gameState <> "".
Proof.
  unfold generateTemplateCommentary.
  destruct (isStr (ev_type e) "combo"); [unfold generateComboTemplate; ne_tac|].
  destruct (isStr (ev_type e) "stockLost"); [unfold generateStockLostTemplate; ne_tac|].
  destruct (isStr (ev_type e) "actionState").
  { unfold generateActionStateTemplate.
    repeat match goal with |- context [if ?b then _ else _] => destruct b end; ne_tac. }
  destruct (isStr (ev_type e) "gameStart").
  { unfold generateGameStartTemplate. destruct (default [] (ev_matchup e)) as [|m0 [|m1 ms]]; ne_tac. }
  destruct (isStr (ev_type e) "gameEnd").
  { unfold generateGameEndTemplate. destruct (_ && _); [ne_tac|].
    match goal with |- context [match ?X with pair _ _ => _ end] => destruct X end. ne_tac. }
  destruct (isStr (ev_type e) "frameUpdate"); [unfold generateFrameUpdateTemplate; ne_tac|].
  discriminate.
Qed.

Lemma startCommentary_hit rt provider e rest style gameState now rnd (cache : Cache) t ts :
  cache !! generateCacheKey rt e style = Some (t, ts) ->
  (now - ts < CACHE_EXPIRY_COMMENTARY)%Z ->
  startCommentary rt provider (e :: rest) style gameState now rnd cache = (Returned t, cache).
Proof.
  intros Hc Hlt. unfold startCommentary. rewrite Hc. apply Z.ltb_lt in Hlt. rewrite Hlt. reflexivity.
Qed.

Lemma startCommentary_other rt provider events style gameState now rnd (cache : Cache) k :
  (forall e rest, events = e :: rest -> generateCacheKey rt e style <> k) ->
  (startCommentary rt provider events style gameState now rnd cache).2 !! k = cache !! k /\
  (forall a, (startCommentary rt provider events style gameState now rnd cache).1 = Awaiting a ->
     aw_cacheKey a <> k).
Proof.
  intros Hk. unfold startCommentary.
  destruct events as [|e rest]; [split; [done|intros a [=]]|].
  specialize (Hk e rest eq_refl).
  assert (Hmiss : forall c0 : Cache, c0 !! k = cache !! k ->
    (match provider with
     | None =>
         let commentary := generateTemplateCommentary rt rnd e gameState in
         (Returned commentary,
          if String.eqb commentary "" then c0
          else <[generateCacheKey rt e style := (commentary, now)]> c0)
     | Some outcome =>
         (Awaiting (mkAwaited outcome e (generateCacheKey rt e style) gameState rnd), c0)
     end).2 !! k = cache !! k /\
    (forall a, (match provider with
     | None =>
         let commentary := generateTemplateCommentary rt rnd e gameState in
         (Returned commentary,
          if String.eqb commentary "" then c0
          else <[generateCacheKey rt e style := (commentary, now)]> c0)
     | Some outcome =>
         (Awaiting (mkAwaited outcome e (generateCacheKey rt e style) gameState rnd), c0)
     end).1 = Awaiting a -> aw_cacheKey a <> k)).
  { intros c0 H0. destruct provider as [outcome|]; simpl.
    - split; [done|]. intros a [= <-]. done.
    - split; [|intros a [=]]. destruct (String.eqb _ _); [done|].
      rewrite lookup_insert_ne; done. }
  destruct (cache !! generateCacheKey rt e style) as [[txt ts]|] eqn:E.
  - destruct (_ <? _)%Z; [split; [done|intros a [=]]|].
    apply Hmiss. rewrite lookup_delete_ne; done.
  - apply Hmiss. done.
Qed.

Lemma resumeCommentary_other rt a after (cache : Cache) k :
  aw_cacheKey a <> k -> (resumeCommentary rt a after cache).2 !! k = cache !! k.
Proof.
  intros Hk. unfold resumeCommentary. destruct (aw_outcome a) as [txt|]; simpl; [|done].
  destruct (String.eqb txt ""); [done|]. rewrite lookup_insert_ne; done.
Qed.

Lemma nstep_fresh rt st s k t ts :
  ncache s !! k = Some (t, ts) ->
  List.Forall (fun a => aw_cacheKey a <> k) (awaiting s) ->
  callBefore (ts + CACHE_EXPIRY_COMMENTARY) st ->
  ncache (nstep rt st s).1 !! k = Some (t, ts) /\
  List.Forall (fun a => aw_cacheKey a <> k) (awaiting (nstep rt st s).1) /\
  List.Forall (servedFrom k t) (nstep rt st s).2.
Proof.
  intros Hc Ha Hst. destruct st as [provider events style gameState rnd now|i now]; simpl in Hst.
  - unfold nstep.
    destruct events as [|e rest] eqn:Hev.
    { simpl. split; [done|split; [done|]]. constructor; [exact I|constructor]. }
    destruct (decide (generateCacheKey rt e style = k)) as [<-|Hne].
    + rewrite (startCommentary_hit rt provider e rest style gameState now rnd (ncache s) t ts Hc ltac:(lia)).
      simpl. split; [done|split; [done|]]. constructor; [intros _; reflexivity|constructor].
    + destruct (startCommentary_other rt provider (e :: rest) style gameState now rnd (ncache s) k
                  ltac:(intros e' rest' [= <- <-]; exact Hne)) as [Hc' Ha'].
      destruct (startCommentary rt provider (e :: rest) style gameState now rnd (ncache s))
        as [[out|a] c]; simpl in Hc', Ha' |- *.
      * split; [congruence|split; [done|]]. constructor; [intros Heq; exfalso; exact (Hne Heq)|constructor].
      * split; [congruence|split].
        -- apply Forall_app. split; [done|]. constructor; [apply Ha'; done|constructor].
        -- constructor; [apply Ha'; done|constructor].
  - unfold nstep. destruct (awaiting s !! i) as [a|] eqn:Hi.
    + pose proof (Forall_lookup_1 _ _ _ _ Ha Hi) as Hak. simpl in Hak.
      pose proof (resumeCommentary_other rt a now (ncache s) k Hak) as Hr.
      destruct (resumeCommentary rt a now (ncache s)) as [out c]. simpl in Hr |- *.
      split; [congruence|split].
      * apply Forall_delete. exact Ha.
      * constructor; [exact Hak|constructor].
    + simpl. split; [done|split; [done|constructor]].
Qed.

Lemma fresh_entry_served rt sched s k t ts :
  ncache s !! k = Some (t, ts) ->
  List.Forall (fun a => aw_cacheKey a <> k) (awaiting s) ->
  List.Forall (callBefore (ts + CACHE_EXPIRY_COMMENTARY)) sched ->
  ncache (runSchedule rt sched s).1 !! k = Some (t, ts) /\
  List.Forall (servedFrom k t) (runSchedule rt sched s).2.
Proof.
  revert s. induction sched as [|st rest IH]; intros s Hc Ha Hs; simpl; [split; [done|constructor]|].
  apply Forall_cons in Hs as [Hst Hrest].
  destruct (nstep_fresh rt st s k t ts Hc Ha Hst) as (Hc1 & Ha1 & Ho1).
  destruct (nstep rt st s) as [s1 o1]. simpl in Hc1, Ha1, Ho1.
  destruct (IH s1 Hc1 Ha1 Hrest) as [Hc2 Ho2].
  destruct (runSchedule rt rest s1) as [s2 o2]. simpl in Hc2, Ho2 |- *.
  split; [exact Hc2|]. apply Forall_app. split; done.
Qed.

(** C6 (amended): the narration calls may overlap, since
    [provideLiveCommentary] awaits the provider between its cache check
    and its cache write.  Suppose the cache holds [(t, ts)] under a key
    [k] (a first event's content and style) and no call with key [k] is
    waiting for the provider.  Then, over any schedule of new calls and
    settling provider calls in which every new call starts before
    [ts] + TTL (30 s): every call with key [k] returns exactly [t]
    without calling the provider, no call with key [k] calls the provider
    or settles, and the entry stays [(t, ts)]. *)
Theorem C6_fresh_entry_served (rt : JsRuntime) (sched : list NStep) (s : NState)
    (k t : string) (ts : Z) :
  ncache s !! k = Some (t, ts) ->
  List.Forall (fun a => aw_cacheKey a <> k) (awaiting s) ->
  List.Forall (callBefore (ts + CACHE_EXPIRY_COMMENTARY)) sched ->
  ncache (runSchedule rt sched s).1 !! k = Some (t, ts) /\
  List.Forall (servedFrom k t) (runSchedule rt sched s).2.
Proof. apply fresh_entry_served. Qed.

(** C6 (counterexample): two calls narrating the same combo at 1000 ms
    and 1100 ms both miss the cache and both call the provider.  The
    second settles first (2000 ms) and its text "B" is served at 2500 ms;
    then the first settles (3000 ms) and overwrites the entry, so a call
    at 4000 ms, within the TTL of the entry "B", gets "A". *)
Theorem C6_overlapping_calls_counterexample :
  (runSchedule sampleRuntime sampleOverlap (mkNState ∅ [])).2 =
    [ObsCalled (generateCacheKey sampleRuntime sampleComboEvent "technical");
     ObsCalled (generateCacheKey sampleRuntime sampleComboEvent "technical");
     ObsResolved (generateCacheKey sampleRuntime sampleComboEvent "technical") "B";
     ObsReturned (Some (generateCacheKey sampleRuntime sampleComboEvent "technical")) "B";
     ObsResolved (generateCacheKey sampleRuntime sampleComboEvent "technical") "A";
     ObsReturned (Some (generateCacheKey sampleRuntime sampleComboEvent "technical")) "A"].
Proof. vm_compute. reflexivity. Qed.

Lemma startCommentary_nonempty rt provider e rest style gameState now rnd (cache : Cache) :
  map_Forall (fun _ v => v.1 <> "") cache ->
  (match (startCommentary rt provider (e :: rest) style gameState now rnd cache).1 with
   | Returned out => out <> ""
   | Awaiting _ => True
   end) /\
  map_Forall (fun _ v => v.1 <> "") (startCommentary rt provider (e :: rest) style gameState now rnd cache).2.
Proof.
  intros Hall. unfold startCommentary.
  assert (Hmiss : forall c0 : Cache, map_Forall (fun _ v => v.1 <> "") c0 ->
    (match (match provider with
      | None => let commentary := generateTemplateCommentary rt rnd e gameState in
                (Returned commentary, if String.eqb commentary "" then c0
                 else <[generateCacheKey rt e style := (commentary, now)]> c0)
      | Some outcome => (Awaiting (mkAwaited outcome e (generateCacheKey rt e style) gameState rnd), c0)
      end).1 with Returned out => out <> "" | Awaiting _ => True end) /\
    map_Forall (fun _ v => v.1 <> "") (match provider with
      | None => let commentary := generateTemplateCommentary rt rnd e gameState in
                (Returned commentary, if String.eqb commentary "" then c0
                 else <[generateCacheKey rt e style := (commentary, now)]> c0)
      | Some outcome => (Awaiting (mkAwaited outcome e (generateCacheKey rt e style) gameState rnd), c0)
      end).2).
  { intros c0 H0. destruct provider as [outcome|]; simpl; [done|].
    destruct (String.eqb_spec (generateTemplateCommentary rt rnd e gameState) "") as [H|H].
    - exfalso. exact (template_nonempty _ _ _ _ H).
    - split; [done|]. apply map_Forall_insert_2; done. }
  destruct (cache !! generateCacheKey rt e style) as [[txt ts]|] eqn:E.
  - destruct (_ <? _)%Z.
    + simpl. split; [|done]. exact (map_Forall_lookup_1 _ _ _ _ Hall E).
    + apply Hmiss. apply map_Forall_delete. done.
  - apply Hmiss. done.
Qed.

Lemma resumeCommentary_nonempty rt a after (cache : Cache) :
  map_Forall (fun _ v => v.1 <> "") cache ->
  (resumeCommentary rt a after cache).1 <> "" /\
  map_Forall (fun _ v => v.1 <> "") (resumeCommentary rt a after cache).2.
Proof.
  intros Hall. unfold resumeCommentary. destruct (aw_outcome a) as [txt|]; simpl.
  - destruct (String.eqb_spec txt ""); [split; [discriminate|done]|].
    split; [done|]. apply map_Forall_insert_2; done.
  - split; [apply template_nonempty|done].
Qed.

Lemma narration_nonempty rt provider e rest style gameState now after rnd (cache : Cache) :
  map_Forall (fun _ v => v.1 <> "") cache ->
  let res := provideLiveCommentary rt provider (e :: rest) style gameState now after rnd cache in
  res.1.1 <> "" /\ map_Forall (fun _ v => v.1 <> "") res.1.2.
Proof.
  intros Hall. cbv zeta. unfold provideLiveCommentary.
  destruct (startCommentary_nonempty rt provider e rest style gameState now rnd cache Hall) as [H1 H2].
  destruct (startCommentary rt provider (e :: rest) style gameState now rnd cache) as [[out|a] c].
  - simpl in *. done.
  - simpl in H2. destruct (resumeCommentary_nonempty rt a after c H2) as [H3 H4].
    destruct (resumeCommentary rt a after c) as [out c']. simpl in *. done.
Qed.

(** C7: with a failing provider, a request whose key has no fresh cache
    entry returns the template text of its first event (and a fresh hit
    returns the cached text); the template generator returns a nonempty
    text for every event, ["The match continues!"] for an unrecognized
    type; and for any provider outcome, as long as the cache holds only
    nonempty texts (it starts empty), a non-empty batch gets a nonempty
    text and the cache keeps holding nonempty texts only. *)
Theorem C7_provider_failure_falls_back (rt : JsRuntime) (rnd : nat) (e : NEvent)
    (rest : list NEvent) (style : string) (gameState : option (list GsPlayer))
    (now after : Z) (cache : Cache) :
  (let '(out, _, called) :=
     provideLiveCommentary rt (Some ProvFails) (e :: rest) style gameState now after rnd cache in
   match cache !! generateCacheKey rt e style with
   | Some (t, ts) =>
       if (now - ts <? CACHE_EXPIRY_COMMENTARY)%Z then out = t /\ called = false
       else out = generateTemplateCommentary rt rnd e gameState /\ called = true
   | None => out = generateTemplateCommentary rt rnd e gameState /\ called = true
   end) /\
  (forall e' gameState', generateTemplateCommentary rt rnd e' gameState' <> "") /\
  (forall e' gameState',
     (forall ty, In ty ["combo"; "stockLost"; "actionState"; "gameStart"; "gameEnd"; "frameUpdate"] ->
        isStr (ev_type e') ty = false) ->
     generateTemplateCommentary rt rnd e' gameState' = "The match continues!") /\
  (forall provider,
     map_Forall (fun _ v => v.1 <> "") cache ->
     let res := provideLiveCommentary rt provider (e :: rest) style gameState now after rnd cache in
     res.1.1 <> "" /\ map_Forall (fun _ v => v.1 <> "") res.1.2).
Proof.
  split; [|split; [|split]].
  - unfold provideLiveCommentary, startCommentary.
    destruct (cache !! generateCacheKey rt e style) as [[t ts]|]; [|done].
    destruct (_ <? _)%Z; done.
  - apply template_nonempty.
  - intros e' gs' Hty. unfold generateTemplateCommentary.
    rewrite !Hty; simpl; auto 10.
  - intros provider. apply narration_nonempty.
Qed.

(** A use of C6: a template narration of a combo at 1000 ms is cached;
    a call 19 s later with the same combo and a failing provider gets it
    back, and the entry stays. *)
Lemma C6_fresh_entry_served_witness :
  ncache (nstep sampleRuntime (sampleCall None 1000) (mkNState ∅ [])).1 !!
      generateCacheKey sampleRuntime sampleComboEvent "technical" =
    Some (generateTemplateCommentary sampleRuntime 0 sampleComboEvent None, 1000%Z) /\
  (runSchedule sampleRuntime [sampleCall (Some ProvFails) 20000]
     (nstep sampleRuntime (sampleCall None 1000) (mkNState ∅ [])).1).2 =
    [ObsReturned (Some (generateCacheKey sampleRuntime sampleComboEvent "technical"))
       (generateTemplateCommentary sampleRuntime 0 sampleComboEvent None)] /\
  List.Forall (servedFrom (generateCacheKey sampleRuntime sampleComboEvent "technical")
                          (generateTemplateCommentary sampleRuntime 0 sampleComboEvent None))
    (runSchedule sampleRuntime [sampleCall (Some ProvFails) 20000]
       (nstep sampleRuntime (sampleCall None 1000) (mkNState ∅ [])).1).2.
Proof.
  assert (H1 : ncache (nstep sampleRuntime (sampleCall None 1000) (mkNState ∅ [])).1 !!
      generateCacheKey sampleRuntime sampleComboEvent "technical" =
    Some (generateTemplateCommentary sampleRuntime 0 sampleComboEvent None, 1000%Z))
    by (vm_compute; reflexivity).
  assert (Ha : List.Forall (fun a => aw_cacheKey a <> generateCacheKey sampleRuntime sampleComboEvent "technical")
                 (awaiting (nstep sampleRuntime (sampleCall None 1000) (mkNState ∅ [])).1))
    by (vm_compute; apply List.Forall_nil).
  assert (Hs : List.Forall (callBefore (1000 + CACHE_EXPIRY_COMMENTARY)) [sampleCall (Some ProvFails) 20000]).
  { apply List.Forall_cons; [unfold callBefore, sampleCall, CACHE_EXPIRY_COMMENTARY; lia|apply List.Forall_nil]. }
  split; [exact H1|split; [vm_compute; reflexivity|]].
  exact (proj2 (C6_fresh_entry_served sampleRuntime _ _ _ _ _ H1 Ha Hs)).
Defined.

(* ===================================================================== *)
(** ** Throttling of one (match, class) pair *)
(* ===================================================================== *)

Lemma canTrigger_keeps_untracked t et p g fp :
  g !! fp = None -> snd (_canTriggerEventType t et p g) !! fp = None.
Proof.
  intros H. unfold _canTriggerEventType.
  destruct (EVENT_PRIORITIES et); [|done].
  destruct (_ <? _)%Z; [done|].
  destruct (g !! p) eqn:E; [|done]. simpl.
  rewrite lookup_insert_ne; [done|]. intros ->. congruence.
Qed.

(** X1: For a match with no [gameByPath] entry, a query of a known class is
    admitted as soon as [now] reaches the class's threshold, and nothing
    is recorded: every such query of that class for that match is
    admitted, whatever other queries are interleaved. *)
Theorem untracked_match_unthrottled (fp et : string) (threshold : Z)
    (calls : list (Z * string * string)) (g : gmap string GameState) :
  g !! fp = None ->
  EVENT_PRIORITIES et = Some threshold ->
  (forall t et' p, In (t, et', p) calls -> p = fp -> et' = et -> (threshold <= t)%Z) ->
  count_admitted fp et calls g =
    length (List.filter (fun c => String.eqb (snd (fst c)) et && String.eqb (snd c) fp) calls).
Proof.
  revert g. induction calls as [|[[t et'] p] rest IH]; intros g Hg Hth Hwin; [done|].
  simpl. destruct (_canTriggerEventType t et' p g) as [ok g'] eqn:E.
  assert (Hg' : g' !! fp = None).
  { pose proof (canTrigger_keeps_untracked t et' p g fp Hg) as H. rewrite E in H. done. }
  rewrite (IH g' Hg' Hth); [|intros; eapply Hwin; [right|..]; eauto].
  destruct (String.eqb_spec et' et) as [->|Hne]; destruct (String.eqb_spec p fp) as [->|Hnp];
    simpl; rewrite ?andb_false_r; try done.
  assert (ok = true) as ->; [|done].
  unfold _canTriggerEventType, lastTriggeredOf in E. rewrite Hth, Hg in E.
  specialize (Hwin t et fp (or_introl eq_refl) eq_refl eq_refl).
  destruct (Z.ltb_spec (t - 0) threshold); [lia|]. congruence.
Qed.

(** An example: a STOCK_LOSS query at 5000 ms and another at
    5200 ms for an untracked match are both admitted. *)
Lemma untracked_match_unthrottled_witness :
  count_admitted "x.slp" "STOCK_LOSS" [(5000%Z, "STOCK_LOSS", "x.slp"); (5200%Z, "STOCK_LOSS", "x.slp")] ∅ = 2.
Proof.
  rewrite (untracked_match_unthrottled "x.slp" "STOCK_LOSS" 1000%Z _ ∅ (lookup_empty _) eq_refl).
  - reflexivity.
  - intros t et' p [H|[H|[]]] _ _; injection H as <- <- <-; lia.
Defined.

Lemma canTrigger_other_pair t et' p g fp et :
  ~ (p = fp /\ et' = et) -> throttleAgree fp et (snd (_canTriggerEventType t et' p g)) g.
Proof.
  intros Hne. unfold _canTriggerEventType, throttleAgree.
  destruct (EVENT_PRIORITIES et'); [|done].
  destruct (_ <? _)%Z; [done|].
  destruct (g !! p) as [gs|] eqn:E; [|done]. simpl.
  unfold lastTriggeredOf.
  destruct (String.eq_dec p fp) as [->|Hnp].
  - rewrite lookup_insert_eq, E. simpl. rewrite lookup_insert_ne; [|intros ->; tauto].
    split; [done|]. split; discriminate.
  - rewrite lookup_insert_ne by done. done.
Qed.

Lemma canTrigger_same_pair t et fp g1 g2 :
  throttleAgree fp et g1 g2 ->
  fst (_canTriggerEventType t et fp g1) = fst (_canTriggerEventType t et fp g2) /\
  throttleAgree fp et (snd (_canTriggerEventType t et fp g1)) (snd (_canTriggerEventType t et fp g2)).
Proof.
  intros [Hl Hn]. unfold _canTriggerEventType. rewrite Hl.
  destruct (EVENT_PRIORITIES et); [|done].
  destruct (_ <? _)%Z; [done|].
  destruct (g1 !! fp) as [gs1|] eqn:E1; destruct (g2 !! fp) as [gs2|] eqn:E2.
  - simpl. split; [done|]. unfold throttleAgree, lastTriggeredOf.
    rewrite !lookup_insert_eq. simpl. rewrite !lookup_insert_eq. split; [done|]. split; discriminate.
  - exfalso. destruct Hn as [_ H]. specialize (H eq_refl). congruence.
  - exfalso. destruct Hn as [H _]. specialize (H eq_refl). congruence.
  - simpl. split; [done|]. split; done.
Qed.

(** X2: The admissions of one (match, class) pair do not depend on the
    queries of other pairs: running only that pair's queries admits
    exactly as many of them as running the whole interleaved sequence. *)
Theorem throttle_pair_isolated (fp et : string) (calls : list (Z * string * string))
    (g : gmap string GameState) :
  count_admitted fp et calls g =
    count_admitted fp et
      (List.filter (fun c => String.eqb (snd (fst c)) et && String.eqb (snd c) fp) calls) g.
Proof.
  assert (Hgen : forall g1 g2, throttleAgree fp et g1 g2 ->
            count_admitted fp et calls g1 =
            count_admitted fp et
              (List.filter (fun c => String.eqb (snd (fst c)) et && String.eqb (snd c) fp) calls) g2).
  { induction calls as [|[[t et'] p] rest IH]; intros g1 g2 Hag; [done|].
    simpl.
    destruct (String.eqb_spec et' et) as [->|Hne]; destruct (String.eqb_spec p fp) as [->|Hnp]; simpl.
    - rewrite !String.eqb_refl. simpl.
      destruct (canTrigger_same_pair t et fp g1 g2 Hag) as [Hok Hag'].
      destruct (_canTriggerEventType t et fp g1) as [ok1 g1'].
      destruct (_canTriggerEventType t et fp g2) as [ok2 g2']. simpl in *. subst ok2.
      rewrite (IH g1' g2' Hag'). done.
    - assert (Hag' := canTrigger_other_pair t et p g1 fp et ltac:(tauto)).
      destruct (_canTriggerEventType t et p g1) as [ok1 g1']. simpl in *.
      rewrite andb_false_r. simpl. apply IH.
      destruct Hag' as [H1 H2], Hag as [H3 H4]. split; [congruence|tauto].
    - assert (Hag' := canTrigger_other_pair t et' fp g1 fp et ltac:(tauto)).
      destruct (_canTriggerEventType t et' fp g1) as [ok1 g1']. simpl in *.
      rewrite andb_false_r. simpl. apply IH.
      destruct Hag' as [H1 H2], Hag as [H3 H4]. split; [congruence|tauto].
    - assert (Hag' := canTrigger_other_pair t et' p g1 fp et ltac:(tauto)).
      destruct (_canTriggerEventType t et' p g1) as [ok1 g1']. simpl in *.
      rewrite andb_false_r. simpl. apply IH.
      destruct Hag' as [H1 H2], Hag as [H3 H4]. split; [congruence|tauto]. }
  apply Hgen. split; done.
Qed.

(* ===================================================================== *)
(** ** Action-state detection *)
(* ===================================================================== *)

Section DetectWindow.
Variable a : Z.

Lemma emitAction_window now ev c acc :
  (a <= now < a + 5000)%Z -> oneInWindow a c acc -> oneInWindow a c (emitAction now ev acc).
Proof.
  intros Hw. destruct acc as [gs evs]. unfold oneInWindow, emitAction, canTrigger. simpl.
  intros Hinv.
  destruct (Z.ltb_spec (now - default 0%Z (lastEventTimes gs !! "NEUTRAL_EXCHANGE")) 5000);
    simpl.
  - done.
  - destruct Hinv as [H0|[H1 (t & Ht & Hta)]].
    + right. rewrite length_app. simpl. split; [lia|].
      exists now. simpl. rewrite lookup_insert_eq. split; [done|lia].
    + exfalso. rewrite Ht in *. simpl in *. lia.
Qed.

Ltac window_steps :=
  repeat match goal with
         | |- oneInWindow _ _ (if ?b then _ else _) => destruct b
         | |- oneInWindow _ _ (emitAction _ _ _) => apply emitAction_window; [done|]
         end.

Lemma detectPlayer_window now fno prevPlayers i p c acc :
  (a <= now < a + 5000)%Z -> oneInWindow a c acc ->
  oneInWindow a c (detectPlayer now fno prevPlayers i p acc).
Proof.
  intros Hw H. unfold detectPlayer.
  destruct (mjoin (prevPlayers !! i)) as [pp|]; [|done].
  destruct (post p) as [cur|], (post pp) as [prev|]; try done.
  cbv zeta. window_steps; done.
Qed.

Lemma detectLoop_window now fno prevPlayers ps i c acc :
  (a <= now < a + 5000)%Z -> oneInWindow a c acc ->
  oneInWindow a c (detectLoop now fno prevPlayers i ps acc).1.
Proof.
  revert i acc. induction ps as [|[p|] rest IH]; intros i acc Hw H; simpl; [done| |].
  - apply IH; [done|]. apply detectPlayer_window; done.
  - destruct (mjoin (prevPlayers !! i)); simpl; [done|]. apply IH; done.
Qed.

Lemma detect_window now prev cur gs c :
  (a <= now < a + 5000)%Z -> oneInWindow a c (gs, []) ->
  oneInWindow a c (_detectStateTransitions now prev cur gs).1.
Proof.
  intros Hw H. unfold _detectStateTransitions.
  destruct prev as [pf|]; [|done]. destruct (fplayers pf); [|done].
  destruct (fplayers cur); [|done]. apply detectLoop_window; done.
Qed.

Lemma detectRun_window calls gs c :
  (forall now prev cur, In (now, prev, cur) calls -> (a <= now < a + 5000)%Z) ->
  oneInWindow a c (gs, []) ->
  c + length (detectRun calls gs).2 <= 1.
Proof.
  revert gs c. induction calls as [|[[now prev] cur] rest IH]; intros gs c Hw H.
  - unfold oneInWindow in H. simpl in *. lia.
  - simpl. pose proof (detect_window now prev cur gs c (Hw _ _ _ (or_introl eq_refl)) H) as H1.
    destruct (_detectStateTransitions now prev cur gs) as [[gs' evs] ok].
    simpl in H1.
    specialize (IH gs' (c + length evs) ltac:(intros; eapply Hw; right; eauto)).
    destruct (detectRun rest gs') as [gs'' evs'] eqn:E. simpl in *.
    rewrite length_app.
    assert (c + length evs + length evs' <= 1); [|lia].
    apply IH. unfold oneInWindow in *. simpl. rewrite Nat.add_0_r. done.
Qed.

End DetectWindow.

(** X3: All action-state detections (techs, shields, grabs, recoveries and
    aerial landings of every player) share the NEUTRAL_EXCHANGE class:
    over any run of the detector on one match whose throttle queries all
    fall within a window shorter than 5000 ms, at most one action-state
    event is queued in total. *)
Theorem action_events_one_per_window (a : Z) (calls : list (Z * option Frame * Frame))
    (gs : GameState) :
  (forall now prev cur, In (now, prev, cur) calls -> (a <= now < a + 5000)%Z) ->
  length (detectRun calls gs).2 <= 1.
Proof.
  intros Hw. apply (detectRun_window a calls gs 0 Hw). left. done.
Qed.

Lemma action_events_one_per_window_witness :
  (detectRun sampleShieldGrabRun (gst (gameStarted sampleRoster 8))).2 =
    [mkActionEvent "shield" 0 11 NoDetails] /\
  length (detectRun sampleShieldGrabRun (gst (gameStarted sampleRoster 8))).2 <= 1.
Proof.
  split; [vm_compute; reflexivity|].
  apply (action_events_one_per_window 10000%Z).
  intros now prev cur [H|[H|[]]]; injection H as <- _ _; lia.
Defined.

Lemma extendsShaped_refl acc : extendsShaped acc acc.
Proof. exists []. rewrite app_nil_r. done. Qed.

Lemma extendsShaped_emit now ev acc acc' :
  detectedShape ev -> extendsShaped acc acc' -> extendsShaped acc (emitAction now ev acc').
Proof.
  intros Hev (l & Hl & Hf). destruct acc' as [gs evs]. unfold emitAction. simpl in *.
  destruct (canTrigger now "NEUTRAL_EXCHANGE" gs) as [ok gs']. simpl.
  destruct ok.
  - exists (l ++ [ev]). rewrite Hl, app_assoc. split; [done|].
    apply Forall_app. split; [done|]. constructor; [done|constructor].
  - exists l. done.
Qed.

Lemma extendsShaped_trans a1 a2 a3 :
  extendsShaped a1 a2 -> extendsShaped a2 a3 -> extendsShaped a1 a3.
Proof.
  intros (l1 & H1 & F1) (l2 & H2 & F2). exists (l1 ++ l2).
  rewrite H2, H1, app_assoc. split; [done|]. apply Forall_app. done.
Qed.

Lemma aerialName_in prev :
  In (aerialName prev) ["neutral air"; "forward air"; "back air"; "up air"; "down air"; "aerial"].
Proof.
  unfold aerialName.
  repeat match goal with |- context [if ?b then _ else _] => destruct b end; simpl; tauto.
Qed.

Lemma detectPlayer_shaped now fno prevPlayers i p acc :
  extendsShaped acc (detectPlayer now fno prevPlayers i p acc).
Proof.
  unfold detectPlayer.
  destruct (mjoin (prevPlayers !! i)) as [pp|]; [|apply extendsShaped_refl].
  destruct (post p) as [cur|], (post pp) as [prev|]; try apply extendsShaped_refl.
  cbv zeta.
  repeat match goal with
         | |- extendsShaped _ (if ?b then _ else _) => destruct b
         | |- extendsShaped _ (emitAction _ _ _) => apply extendsShaped_emit
         | |- detectedShape _ => split; simpl; [tauto|]
         | |- extendsShaped ?x ?x => apply extendsShaped_refl
         end;
    try (intros; discriminate);
    try (intros _; eexists; split; [reflexivity|apply aerialName_in]).
  all: unfold detectedShape; simpl; destruct (isState (actionStateId cur) SHIELD); simpl;
    (split; [tauto|intros; discriminate]).
Qed.

Lemma detectLoop_shaped now fno prevPlayers ps i acc :
  extendsShaped acc (detectLoop now fno prevPlayers i ps acc).1.
Proof.
  revert i acc. induction ps as [|[p|] rest IH]; intros i acc; simpl;
    try apply extendsShaped_refl.
  - eapply extendsShaped_trans; [apply detectPlayer_shaped|apply IH].
  - destruct (mjoin (prevPlayers !! i)); simpl; [apply extendsShaped_refl|apply IH].
Qed.

Lemma actionTemplate_aerial rt rnd gp ev :
  ae_subType ev = "aerial" ->
  generateTemplateCommentary rt rnd (actionEventObj ev) gp = "Technical execution from Fighter!".
Proof. destruct ev as [st i f d]. simpl. intros ->. reflexivity. Qed.

(** X4: Every event the detector queues is a tech, shield, grab, recovery or
    aerial-landing event; an aerial-landing event carries the aerial's
    name (["neutral air"], ...), but the template narration has no case
    for the [aerial] subtype and the event has no [playerCharacter], so it
    is narrated as ["Technical execution from Fighter!"] whatever the
    aerial and the player. *)
Theorem aerial_landings_narrated_generically (rt : JsRuntime) (rnd : nat)
    (gp : option (list GsPlayer)) (now : Z) (prev : option Frame) (cur : Frame)
    (gs : GameState) :
  List.Forall
    (fun ev => In (ae_subType ev) ["tech"; "shield"; "grab"; "recovery"; "aerial"] /\
       (ae_subType ev = "aerial" ->
          (exists nm, ae_details ev = AerialDetails nm /\
             In nm ["neutral air"; "forward air"; "back air"; "up air"; "down air"; "aerial"]) /\
          generateTemplateCommentary rt rnd (actionEventObj ev) gp =
            "Technical execution from Fighter!"))
    (_detectStateTransitions now prev cur gs).1.2.
Proof.
  assert (H : extendsShaped (gs, []) (_detectStateTransitions now prev cur gs).1).
  { unfold _detectStateTransitions.
    destruct prev as [pf|]; [|apply extendsShaped_refl].
    destruct (fplayers pf); [|apply extendsShaped_refl].
    destruct (fplayers cur); [|apply extendsShaped_refl].
    apply detectLoop_shaped. }
  destruct H as (l & Hl & Hf). rewrite Hl. simpl.
  eapply Forall_impl; [exact Hf|]. intros ev [Hin Hae]. split; [done|].
  intros Hs. split; [apply Hae, Hs|]. apply actionTemplate_aerial, Hs.
Qed.

(* ===================================================================== *)
(** ** Game end *)
(* ===================================================================== *)

(** X5: The narration of the [gameEnd] event the coach queues: for a
    [gameEndMethod] of exactly the number 7 with a defined
    [lrasInitiatorIndex] it names the quitter (index + 1); in every other
    case the event carries no [winnerIndex], so, whatever game state the
    narration is given, the text names neither the winner nor the loser. *)
Theorem game_end_narration_names_no_winner (rt : JsRuntime) (rnd : nat)
    (gameEndMethod lrasInitiatorIndex : JsVal) (latest : Z) (gp : option (list GsPlayer)) :
  generateTemplateCommentary rt rnd (gameEndEventObj gameEndMethod lrasInitiatorIndex latest) gp =
    if jsStrictEq gameEndMethod (JNum 7) && negb (isUndef lrasInitiatorIndex) then
      cat ["Game ended early - Player "; jsToString rt (jsPlusOne rt lrasInitiatorIndex);
           " has left the match."]
    else
      pick rnd ["Game! The winner takes the victory over the opponent.";
                "That's it! The winner clutches out the win against the opponent.";
                "Match complete! The winner bests the opponent in a hard-fought set."].
Proof.
  unfold generateTemplateCommentary, gameEndEventObj. simpl ev_type.
  cbn [isStr String.eqb]. simpl.
  unfold generateGameEndTemplate. simpl.
  assert (Hw : forall gps : option (list GsPlayer),
     (let '(winner, loser) :=
        match gps with
        | Some gps0 =>
            if negb (isUndef JUndef) && negb (jsStrictEq JUndef (JNum (-1))) then
              (match List.find (fun p => jsStrictEq (gp_index p) JUndef) gps0 with
               | Some wp => playerLabel rt wp JUndef | None => "The winner" end,
               match List.find (fun p => negb (jsStrictEq (gp_index p) JUndef)) gps0 with
               | Some lp => playerLabel rt lp (gp_index lp) | None => "the opponent" end)
            else ("The winner", "the opponent")
        | None => ("The winner", "the opponent")
        end in
      pick rnd [cat ["Game! "; winner; " takes the victory over "; loser; "."];
                cat ["That's it! "; winner; " clutches out the win against "; loser; "."];
                cat ["Match complete! "; winner; " bests "; loser; " in a hard-fought set."]]) =
     pick rnd ["Game! The winner takes the victory over the opponent.";
               "That's it! The winner clutches out the win against the opponent.";
               "Match complete! The winner bests the opponent in a hard-fought set."]).
  { intros [gps|]; reflexivity. }
  destruct gameEndMethod as [| | |q|s|b]; simpl; try apply Hw.
  - destruct (Qeq_bool q 7) eqn:E7.
    + assert (Qeq_bool q 1 = false) as ->.
      { apply Qeq_bool_iff in E7. destruct (Qeq_bool q 1) eqn:E1; [|done].
        apply Qeq_bool_iff in E1. rewrite E1 in E7. discriminate. }
      assert (Qeq_bool q 2 = false) as ->.
      { apply Qeq_bool_iff in E7. destruct (Qeq_bool q 2) eqn:E2; [|done].
        apply Qeq_bool_iff in E2. rewrite E2 in E7. discriminate. }
      simpl. destruct lrasInitiatorIndex; simpl; try reflexivity; apply Hw.
    + destruct (Qeq_bool q 1), (Qeq_bool q 2); simpl; apply Hw.
  - destruct (String.eqb s "1"), (String.eqb s "2"), (String.eqb s "7"); simpl; apply Hw.
Qed.

(* --------------------------------------------------------------------- *)
(** ** The clock of a heartbeat *)
(* --------------------------------------------------------------------- *)

Lemma Qfloor_frame_div (f : Z) : Qfloor (inject_Z f / 3600) = (f / 3600)%Z.
Proof. rewrite Zdiv_Qdiv. reflexivity. Qed.

Lemma Qfloor_frame_sec (f : Z) :
  (0 <= f)%Z -> Qfloor (jsRem (inject_Z f) 3600 / 60) = ((f mod 3600) / 60)%Z.
Proof.
  intros Hf. unfold jsRem.
  assert (Hle : Qle_bool 0 (inject_Z f / 3600) = true).
  { apply Qle_bool_iff. apply Qle_shift_div_l; [reflexivity|].
    unfold Qle; simpl; lia. }
  rewrite Hle, Qfloor_frame_div, (Zdiv_Qdiv (f mod 3600) 60). apply Qfloor_comp.
  assert (Hm : (inject_Z f - inject_Z (f / 3600) * 3600 == inject_Z (f mod 3600))%Q).
  { unfold Qeq; simpl. pose proof (Z.div_mod f 3600 ltac:(lia)). lia. }
  rewrite Hm. reflexivity.
Qed.

Lemma Qeq_bool_inject_1 (z : Z) : Qeq_bool (inject_Z z) 1 = Z.eqb z 1.
Proof.
  destruct (Z.eqb_spec z 1) as [->|Hne]; [reflexivity|].
  apply not_true_is_false. intros H. apply Qeq_bool_iff in H.
  change 1%Q with (inject_Z 1) in H. exact (Hne (proj1 (inject_Z_injective z 1) H)).
Qed.

(** X6: For a nonnegative frame number [f] (a number that [Number] leaves
    unchanged), a heartbeat shows the clock [m:ss] with [m = f / 3600]
    and [ss] the seconds [(f mod 3600) / 60], padded to two digits: the
    time of frame [f] at 60 frames per second, rounded down to the
    second; the third text says "minute" only when [m] is 1. *)
Theorem frame_update_clock (rt : JsRuntime) (rnd : nat) (e : NEvent) (f : Z) :
  (0 <= f)%Z ->
  ev_frame e = JNum (inject_Z f) ->
  toNumber rt (JNum (inject_Z f)) = Some (inject_Z f) ->
  let m := (f / 3600)%Z in
  let ss := ((f mod 3600) / 60)%Z in
  let pct := match ev_players e with
             | Some (p0 :: p1 :: _) => cat [" with "; jsToString rt p0; "% vs "; jsToString rt p1; "%"]
             | _ => ""
             end in
  let minuteStr := numToString rt (inject_Z m) in
  let secondStr := padStart2 (numToString rt (inject_Z ss)) in
  (0 <= ss < 60 /\ 3600 * m + 60 * ss <= f < 3600 * m + 60 * ss + 60)%Z /\
  generateFrameUpdateTemplate rt rnd e =
  pick rnd
    [cat [minuteStr; ":"; secondStr; " on the clock"; pct; "."];
     cat ["The match continues at "; minuteStr; ":"; secondStr; pct; "."];
     cat [minuteStr; " minute"; if Z.eqb m 1 then "" else "s"; " in"; pct;
          ", let's see who takes control."]].
Proof.
  intros Hf He Hnum. cbv zeta. split.
  { pose proof (Z.div_mod f 3600 ltac:(lia)). pose proof (Z.mod_pos_bound f 3600 ltac:(lia)).
    pose proof (Z.div_mod (f mod 3600) 60 ltac:(lia)).
    pose proof (Z.mod_pos_bound (f mod 3600) 60 ltac:(lia)).
    pose proof (Z.div_pos (f mod 3600) 60 ltac:(lia) ltac:(lia)). nia. }
  unfold generateFrameUpdateTemplate. rewrite He, Hnum. cbn [option_map numOrNaN].
  rewrite Qfloor_frame_div, (Qfloor_frame_sec f Hf), Qeq_bool_inject_1. reflexivity.
Qed.

(* --------------------------------------------------------------------- *)
(** ** Draining a queue *)
(* --------------------------------------------------------------------- *)

Lemma releasedOf_drain p p' pe hg io n r b :
  releasedOf p' (mkBState pe hg io n (r ++ [(p, b)])) =
  concat (map snd (List.filter (fun b => String.eqb (fst b) p') r)) ++
  (if String.eqb p p' then b else []).
Proof.
  unfold releasedOf. simpl. rewrite List.filter_app, map_app, concat_app. simpl.
  destruct (String.eqb p p'); simpl; rewrite ?app_nil_r; done.
Qed.

Lemma drainKey_empty p s : pendingEvents s !! p = Some [] -> drainKey p s = s.
Proof. intros H. unfold drainKey. rewrite H. reflexivity. Qed.

Lemma drainKey_cons p s x q :
  p ∈ hasGame s -> pendingEvents s !! p = Some (x :: q) ->
  drainKey p s = mkBState (<[p := drop PENDING_EVENTS_LIMIT (x :: q)]> (pendingEvents s))
                   (hasGame s) (intervalOn s) (nextId s)
                   (released s ++ [(p, take PENDING_EVENTS_LIMIT (x :: q))]).
Proof.
  intros Hg H. unfold drainKey. rewrite H. simpl.
  destruct (decide (p ∈ hasGame s)); [reflexivity|done].
Qed.

(** X7: Draining alone: [k] drain iterations for a tracked match [p] whose
    queue holds at most [3 k] events (one iteration per tick of
    [_processPendingEvents], lines 189-226, with no new events) release
    the whole queue for [p], in enqueue order, and leave it empty; the
    other matches' queues and releases, the tracked games and the timer
    are untouched. *)
Theorem drain_releases_whole_queue (p : string) (s : BState) (q : list nat) (k : nat) :
  p ∈ hasGame s -> pendingEvents s !! p = Some q ->
  length q <= PENDING_EVENTS_LIMIT * k ->
  let s' := Nat.iter k (drainKey p) s in
  pendingEvents s' !! p = Some [] /\
  releasedOf p s' = releasedOf p s ++ q /\
  (forall p', p' <> p ->
     pendingEvents s' !! p' = pendingEvents s !! p' /\ releasedOf p' s' = releasedOf p' s) /\
  hasGame s' = hasGame s /\ intervalOn s' = intervalOn s.
Proof.
  cbv zeta. revert s q. induction k as [|k IH]; intros s q Hg Hq Hlen.
  - destruct q; [|simpl in Hlen; lia]. simpl. rewrite app_nil_r. done.
  - rewrite Nat.iter_succ_r. destruct q as [|x q].
    + rewrite (drainKey_empty p s Hq). apply (IH s []); [done|done|simpl; lia].
    + rewrite (drainKey_cons p s x q Hg Hq).
      set (s1 := mkBState _ _ _ _ _).
      destruct (IH s1 (drop PENDING_EVENTS_LIMIT (x :: q))) as (H1 & H2 & H3 & H4 & H5).
      { exact Hg. }
      { apply lookup_insert_eq. }
      { rewrite length_drop. unfold PENDING_EVENTS_LIMIT in *. lia. }
      split; [done|split; [|split; [|split; [done|done]]]].
      * rewrite H2. unfold s1. rewrite releasedOf_drain, String.eqb_refl.
        rewrite <- app_assoc, take_drop. reflexivity.
      * intros p' Hp'. destruct (H3 p' Hp') as [E1 E2]. split.
        -- rewrite E1. unfold s1. simpl. apply lookup_insert_ne. congruence.
        -- rewrite E2. unfold s1. rewrite releasedOf_drain.
           destruct (String.eqb_spec p p'); [congruence|]. apply app_nil_r.
Qed.

(* --------------------------------------------------------------------- *)
(** ** Stock losses share a cache entry *)
(* --------------------------------------------------------------------- *)

Lemma stockLost_key_fields rt e1 e2 style :
  isStr (ev_type e1) "stockLost" = true ->
  ev_type e2 = ev_type e1 -> ev_playerIndex e2 = ev_playerIndex e1 ->
  ev_remainingStocks e2 = ev_remainingStocks e1 ->
  generateCacheKey rt e2 style = generateCacheKey rt e1 style.
Proof.
  intros Hty Ht Hp Hr. unfold generateCacheKey. rewrite Ht, Hp, Hr.
  destruct (ev_type e1) as [| | | |s|]; try discriminate.
  simpl in Hty. apply String.eqb_eq in Hty. subst s. reflexivity.
Qed.

Lemma stockLost_template rt rnd e gameState :
  isStr (ev_type e) "stockLost" = true ->
  generateTemplateCommentary rt rnd e gameState = generateStockLostTemplate rt rnd e.
Proof.
  intros Hty. unfold generateTemplateCommentary.
  destruct (ev_type e) as [| | | |s|]; try discriminate.
  simpl in Hty. apply String.eqb_eq in Hty. subst s. reflexivity.
Qed.

(** X10: The cache key of a stock loss holds only the event type, the player
    index and the remaining stocks, not the character nor [isHuman].  So
    when a stock loss [e1] is narrated from the template at [t1] (no
    provider; no entry for its key, or only an expired one) while no call
    with that key waits for the provider, then over any schedule that
    follows in which every new call starts before [t1] + TTL, every call
    narrating a stock loss of the same player index and stock count in
    the same style, whatever its character and provider, returns the
    first event's text, and none calls the provider. *)
Theorem stock_loss_text_shared_across_events (rt : JsRuntime) (e1 : NEvent)
    (rest1 : list NEvent) (style : string) (gs1 : option (list GsPlayer)) (rnd1 : nat)
    (t1 : Z) (s : NState) (sched : list NStep) :
  isStr (ev_type e1) "stockLost" = true ->
  (forall c ts, ncache s !! generateCacheKey rt e1 style = Some (c, ts) ->
     (CACHE_EXPIRY_COMMENTARY <= t1 - ts)%Z) ->
  List.Forall (fun a => aw_cacheKey a <> generateCacheKey rt e1 style) (awaiting s) ->
  List.Forall (callBefore (t1 + CACHE_EXPIRY_COMMENTARY)) sched ->
  let '(s1, o1) := nstep rt (NCall None (e1 :: rest1) style gs1 rnd1 t1) s in
  o1 = [ObsReturned (Some (generateCacheKey rt e1 style)) (generateStockLostTemplate rt rnd1 e1)] /\
  (forall e2, ev_type e2 = ev_type e1 -> ev_playerIndex e2 = ev_playerIndex e1 ->
     ev_remainingStocks e2 = ev_remainingStocks e1 ->
     generateCacheKey rt e2 style = generateCacheKey rt e1 style) /\
  List.Forall (servedFrom (generateCacheKey rt e1 style) (generateStockLostTemplate rt rnd1 e1))
    (runSchedule rt sched s1).2.
Proof.
  intros Hty Hexp Ha Hs.
  pose proof (stockLost_template rt rnd1 e1 gs1 Hty) as Htpl.
  assert (Hstart : exists c0,
    startCommentary rt None (e1 :: rest1) style gs1 t1 rnd1 (ncache s) =
      (Returned (generateStockLostTemplate rt rnd1 e1),
       <[generateCacheKey rt e1 style := (generateStockLostTemplate rt rnd1 e1, t1)]> c0)).
  { unfold startCommentary. cbv zeta. rewrite Htpl.
    destruct (String.eqb_spec (generateStockLostTemplate rt rnd1 e1) "") as [H|_].
    { exfalso. apply (template_nonempty rt rnd1 e1 gs1). rewrite Htpl. exact H. }
    destruct (ncache s !! generateCacheKey rt e1 style) as [[c ts]|] eqn:E.
    - pose proof (Hexp c ts eq_refl) as Hge.
      destruct (Z.ltb_spec (t1 - ts) CACHE_EXPIRY_COMMENTARY); [lia|]. eexists; reflexivity.
    - eexists; reflexivity. }
  destruct Hstart as [c0 Hstart].
  unfold nstep. rewrite Hstart.
  split; [reflexivity|split].
  - intros e2 Ht Hp Hr. apply stockLost_key_fields; done.
  - apply (fresh_entry_served rt sched _ _ _ t1); [apply lookup_insert_eq|exact Ha|exact Hs].
Qed.

(* --------------------------------------------------------------------- *)
(** ** The ordered cache *)
(* --------------------------------------------------------------------- *)

Lemma ocDelete_in k c x : In x (ocDelete k c) -> In x c.
Proof. unfold ocDelete. intros H. apply filter_In in H. tauto. Qed.

Lemma ocDelete_keys_in k c x : In x (map fst (ocDelete k c)) -> In x (map fst c).
Proof.
  intros H. apply in_map_iff in H as (kv & <- & Hkv). apply in_map, (ocDelete_in k), Hkv.
Qed.

Lemma ocDelete_nodup k c : NoDup (map fst c) -> NoDup (map fst (ocDelete k c)).
Proof.
  induction c as [|kv c IH]; intros Hnd; [constructor|].
  simpl in Hnd. apply NoDup_cons in Hnd as [Hn Hnd].
  unfold ocDelete. simpl. destruct (negb (String.eqb (fst kv) k)); simpl; [|exact (IH Hnd)].
  constructor; [|exact (IH Hnd)].
  intros Hin. apply Hn. apply list_elem_of_In. apply (ocDelete_keys_in k c).
  apply list_elem_of_In. exact Hin.
Qed.

Lemma ocDelete_length_le k c : length (ocDelete k c) <= length c.
Proof. unfold ocDelete. apply List.filter_length_le. Qed.

Lemma ocDelete_absent k c : ~ In k (map fst c) -> ocDelete k c = c.
Proof.
  induction c as [|kv c IH]; intros Hn; [done|]. unfold ocDelete. simpl.
  destruct (String.eqb_spec (fst kv) k) as [E|_]; simpl.
  - exfalso. apply Hn. left. exact E.
  - f_equal. apply IH. intros H. apply Hn. right. exact H.
Qed.

Lemma ocDelete_length_in k c :
  NoDup (map fst c) -> In k (map fst c) -> S (length (ocDelete k c)) = length c.
Proof.
  induction c as [|kv c IH]; intros Hnd Hin; [destruct Hin|].
  simpl in Hnd. apply NoDup_cons in Hnd as [Hn Hnd].
  unfold ocDelete. simpl. destruct (String.eqb_spec (fst kv) k) as [E|Hne]; simpl.
  - subst k. fold (ocDelete (fst kv) c). rewrite ocDelete_absent; [done|].
    intros H. apply Hn. apply list_elem_of_In. exact H.
  - f_equal. apply IH; [done|]. destruct Hin as [E|H]; [congruence|exact H].
Qed.

Lemma ocSet_keys (k : string) (v : string * Z) (c : OrderedCache) :
  map fst (ocSet k v c) =
  if existsb (fun kv => String.eqb (fst kv) k) c then map fst c else map fst c ++ [k].
Proof.
  unfold ocSet. destruct (existsb _ c); [|rewrite map_app; reflexivity].
  rewrite map_map. apply map_ext. intros [k' v']. simpl.
  destruct (String.eqb_spec k' k); simpl; congruence.
Qed.

Lemma existsb_key_false (k : string) (c : OrderedCache) :
  existsb (fun kv => String.eqb (fst kv) k) c = false -> ~ In k (map fst c).
Proof.
  intros H Hin. apply in_map_iff in Hin as (kv & E & Hkv).
  assert (Hx : existsb (fun kv => String.eqb (fst kv) k) c = true).
  { apply existsb_exists. exists kv. split; [done|]. apply String.eqb_eq. exact E. }
  congruence.
Qed.

Lemma ocSet_nodup k v c : NoDup (map fst c) -> NoDup (map fst (ocSet k v c)).
Proof.
  intros Hnd. rewrite ocSet_keys. destruct (existsb _ c) eqn:E; [done|].
  apply NoDup_app. split; [done|split; [|apply NoDup_singleton]].
  intros x Hx Hx'. apply list_elem_of_singleton in Hx'. subst x.
  apply (existsb_key_false k c E). apply list_elem_of_In. exact Hx.
Qed.

Lemma ocSet_length k v c : length (ocSet k v c) <= S (length c).
Proof.
  unfold ocSet. destruct (existsb _ c); [rewrite length_map; lia|].
  rewrite length_app. simpl. lia.
Qed.

Lemma oldestEntry_in c kv : oldestEntry c = Some kv -> In kv c.
Proof.
  revert kv. induction c as [|a c IH]; intros kv H; [discriminate|]. simpl in H.
  destruct (oldestEntry c) as [m|] eqn:E.
  - destruct (_ <? _)%Z; injection H as <-; [right; apply IH; reflexivity|left; reflexivity].
  - injection H as <-. left. reflexivity.
Qed.

Lemma oldestEntry_some c : c <> [] -> exists kv, oldestEntry c = Some kv.
Proof.
  destruct c as [|a c]; [done|]. intros _. simpl.
  destruct (oldestEntry c) as [m|]; [destruct (_ <? _)%Z|]; eauto.
Qed.

Lemma cacheWrite_inv k t now c :
  NoDup (map fst c) -> length c <= 100 ->
  NoDup (map fst (cacheWrite k t now c)) /\ length (cacheWrite k t now c) <= 100.
Proof.
  intros Hnd Hlen. unfold cacheWrite. destruct (String.eqb t ""); [done|].
  pose proof (ocSet_nodup k (t, now) c Hnd) as Hnd1.
  pose proof (ocSet_length k (t, now) c) as Hl1.
  destruct (Nat.ltb_spec 100 (length (ocSet k (t, now) c))) as [Hgt|Hle]; [|done].
  destruct (oldestEntry_some (ocSet k (t, now) c)) as (kv & Hkv).
  { intros E. rewrite E in Hgt. simpl in Hgt. lia. }
  rewrite Hkv. split; [apply ocDelete_nodup, Hnd1|].
  assert (Hin : In (fst kv) (map fst (ocSet k (t, now) c))).
  { apply in_map, oldestEntry_in, Hkv. }
  pose proof (ocDelete_length_in _ _ Hnd1 Hin). lia.
Qed.

Lemma oc_reachable_inv c : OCReachable c -> NoDup (map fst c) /\ length c <= 100.
Proof.
  induction 1 as [|c c' Hr IH Hstep]; [split; [constructor|simpl; lia]|].
  destruct IH as [Hnd Hlen]. destruct Hstep as [k c|k t now c].
  - split; [apply ocDelete_nodup, Hnd|]. pose proof (ocDelete_length_le k c). lia.
  - apply cacheWrite_inv; done.
Qed.

(** X11: Whatever the interleaving of expiries and writes of concurrent
    calls, the cache never holds two entries for one key and never more
    than 100 entries: a write that brings it to 101 removes one entry. *)
Theorem commentary_cache_bounded (c : OrderedCache) :
  OCReachable c -> NoDup (map fst c) /\ length c <= 100.
Proof. apply oc_reachable_inv. Qed.

Lemma find_app {A} (f : A -> bool) (l1 l2 : list A) :
  List.find f (l1 ++ l2) = match List.find f l1 with Some x => Some x | None => List.find f l2 end.
Proof. induction l1 as [|a l1 IH]; simpl; [done|]. destruct (f a); done. Qed.

Lemma ocLookup_none_existsb (k : string) (c : OrderedCache) :
  ocLookup k c = None -> existsb (fun kv => String.eqb (fst kv) k) c = false.
Proof.
  unfold ocLookup. induction c as [|kv c IH]; simpl; [done|].
  destruct (String.eqb (fst kv) k); [discriminate|]. exact IH.
Qed.

Lemma find_ocDelete_none (k k' : string) (c : OrderedCache) :
  List.find (fun kv => String.eqb (fst kv) k) c = None ->
  List.find (fun kv => String.eqb (fst kv) k) (ocDelete k' c) = None.
Proof.
  induction c as [|kv c IH]; simpl; [done|]. unfold ocDelete. simpl.
  destruct (String.eqb (fst kv) k) eqn:E; [discriminate|]. intros H.
  destruct (negb (String.eqb (fst kv) k')); simpl; [rewrite E|]; exact (IH H).
Qed.

Lemma oldestEntry_snoc (l : OrderedCache) x :
  l <> [] -> List.Forall (fun kv => (snd (snd kv) <= snd (snd x))%Z) l ->
  exists kv, oldestEntry (l ++ [x]) = Some kv /\ In kv l.
Proof.
  induction l as [|a l IH]; intros Hne Hall; [done|].
  apply List.Forall_cons_iff in Hall as [Ha Hall]. simpl.
  destruct l as [|b l].
  - simpl. destruct (Z.ltb_spec (snd (snd x)) (snd (snd a))); [lia|].
    exists a. split; [done|left; done].
  - destruct (IH ltac:(discriminate) Hall) as (m & Hm & Hin). rewrite Hm.
    destruct (_ <? _)%Z; [exists m; split; [done|right; exact Hin]|].
    exists a. split; [done|left; done].
Qed.

(** X12: A write under a key the cache does not hold, at a time [now] no
    earlier than every stored timestamp, keeps its entry through the
    trim: the trim removes the first entry with the least timestamp, and
    the new entry comes last in the [Map]'s order. *)
Theorem new_entry_survives_trim (k t : string) (now : Z) (c : OrderedCache) :
  ocLookup k c = None -> t <> "" ->
  List.Forall (fun kv => (snd (snd kv) <= now)%Z) c ->
  ocLookup k (cacheWrite k t now c) = Some (t, now).
Proof.
  intros Hnone Ht Hts. pose proof (ocLookup_none_existsb k c Hnone) as Hex.
  assert (Hfind : List.find (fun kv => String.eqb (fst kv) k) c = None).
  { unfold ocLookup in Hnone. destruct (List.find _ c); [discriminate|done]. }
  unfold cacheWrite. destruct (String.eqb_spec t "") as [|_]; [done|].
  unfold ocSet. rewrite Hex.
  destruct (Nat.ltb_spec 100 (length (c ++ [(k, (t, now))]))) as [Hgt|_].
  - destruct (oldestEntry_snoc c (k, (t, now))) as (kv & Hkv & Hin).
    { intros ->. simpl in Hgt. lia. }
    { exact Hts. }
    rewrite Hkv. unfold ocLookup, ocDelete. rewrite List.filter_app.
    fold (ocDelete (fst kv) c). rewrite find_app, (find_ocDelete_none k (fst kv) c Hfind).
    simpl. destruct (String.eqb_spec k (fst kv)) as [E|_].
    + exfalso. apply (existsb_key_false k c Hex). rewrite E. apply in_map, Hin.
    + simpl. rewrite String.eqb_refl. reflexivity.
  - unfold ocLookup. rewrite find_app, Hfind. simpl. rewrite String.eqb_refl. reflexivity.
Qed.

(** Frame 4000 shows 1:06. *)
Lemma frame_update_clock_witness :
  (0 <= 4000)%Z /\ ev_frame sampleFrameEvent = JNum (inject_Z 4000) /\
  toNumber sampleNumRuntime (JNum (inject_Z 4000)) = Some (inject_Z 4000) /\
  generateFrameUpdateTemplate sampleNumRuntime 0 sampleFrameEvent =
  cat [numToString sampleNumRuntime (inject_Z 1); ":";
       padStart2 (numToString sampleNumRuntime (inject_Z 6)); " on the clock"; ""; "."].
Proof.
  split; [lia|split; [reflexivity|split; [reflexivity|]]].
  destruct (frame_update_clock sampleNumRuntime 0 sampleFrameEvent 4000 ltac:(lia) eq_refl eq_refl)
    as [_ H].
  rewrite H. reflexivity.
Defined.

(** Four queued events leave in two drains. *)
Lemma drain_releases_whole_queue_witness :
  "g.slp" ∈ hasGame sampleFourQueued /\
  pendingEvents sampleFourQueued !! "g.slp" = Some [0; 1; 2; 3] /\
  length [0; 1; 2; 3] <= PENDING_EVENTS_LIMIT * 2 /\
  releasedOf "g.slp" (Nat.iter 2 (drainKey "g.slp") sampleFourQueued) = [0; 1; 2; 3] /\
  pendingEvents (Nat.iter 2 (drainKey "g.slp") sampleFourQueued) !! "g.slp" = Some [].
Proof.
  assert (Hg : "g.slp" ∈ hasGame sampleFourQueued).
  { change (hasGame sampleFourQueued) with ({["g.slp"]} ∪ (∅ : gset string)). set_solver. }
  assert (Hq : pendingEvents sampleFourQueued !! "g.slp" = Some [0; 1; 2; 3]).
  { vm_compute. reflexivity. }
  assert (Hl : length [0; 1; 2; 3] <= PENDING_EVENTS_LIMIT * 2).
  { unfold PENDING_EVENTS_LIMIT. simpl. lia. }
  destruct (drain_releases_whole_queue "g.slp" sampleFourQueued [0; 1; 2; 3] 2 Hg Hq Hl)
    as (H1 & H2 & _).
  split; [exact Hg|split; [exact Hq|split; [exact Hl|split; [|exact H1]]]].
  rewrite H2. reflexivity.
Defined.

(** Marth's stock loss 4 s after Fox's, with a failing provider, gets
    Fox's text. *)
Lemma stock_loss_text_shared_across_events_witness :
  isStr (ev_type sampleStockLostFox) "stockLost" = true /\
  generateCacheKey sampleRuntime sampleStockLostMarth "technical" =
    generateCacheKey sampleRuntime sampleStockLostFox "technical" /\
  List.Forall (servedFrom (generateCacheKey sampleRuntime sampleStockLostFox "technical")
                          (generateStockLostTemplate sampleRuntime 0 sampleStockLostFox))
    (runSchedule sampleRuntime [NCall (Some ProvFails) [sampleStockLostMarth] "technical" None 1 5000]
       (nstep sampleRuntime (NCall None [sampleStockLostFox] "technical" None 0 1000)
          (mkNState ∅ [])).1).2.
Proof.
  assert (Hexp : forall c ts, ncache (mkNState ∅ []) !!
                   generateCacheKey sampleRuntime sampleStockLostFox "technical" = Some (c, ts) ->
                   (CACHE_EXPIRY_COMMENTARY <= 1000 - ts)%Z).
  { intros c ts H. simpl in H. rewrite lookup_empty in H. discriminate. }
  assert (Hs : List.Forall (callBefore (1000 + CACHE_EXPIRY_COMMENTARY))
                 [NCall (Some ProvFails) [sampleStockLostMarth] "technical" None 1 5000]).
  { apply List.Forall_cons; [unfold callBefore, CACHE_EXPIRY_COMMENTARY; lia|apply List.Forall_nil]. }
  pose proof (stock_loss_text_shared_across_events sampleRuntime sampleStockLostFox [] "technical"
                None 0 1000 (mkNState ∅ []) _ eq_refl Hexp (List.Forall_nil _) Hs) as H.
  revert H.
  destruct (nstep sampleRuntime (NCall None [sampleStockLostFox] "technical" None 0 1000)
              (mkNState ∅ [])) as [s1 o1].
  intros (_ & Hkey & Hserved).
  split; [reflexivity|split; [apply Hkey; reflexivity|exact Hserved]].
Defined.

(** Two writes reach a cache of two entries. *)
Lemma commentary_cache_bounded_witness :
  OCReachable sampleOrderedCache /\ NoDup (map fst sampleOrderedCache) /\
  length sampleOrderedCache <= 100.
Proof.
  assert (Hr : OCReachable sampleOrderedCache).
  { unfold sampleOrderedCache. eapply OCR_step; [|apply OC_write].
    eapply OCR_step; [apply OCR_init|apply OC_write]. }
  split; [exact Hr|exact (commentary_cache_bounded sampleOrderedCache Hr)].
Defined.

(** A write into a full cache at a later time: the trim removes an old
    entry and keeps the new one. *)
Lemma new_entry_survives_trim_witness :
  ocLookup "b" sampleFullCache = None /\ "Nice" <> "" /\
  List.Forall (fun kv => (snd (snd kv) <= 5)%Z) sampleFullCache /\
  ocLookup "b" (cacheWrite "b" "Nice" 5 sampleFullCache) = Some ("Nice", 5%Z) /\
  length (cacheWrite "b" "Nice" 5 sampleFullCache) = 100.
Proof.
  assert (Hn : ocLookup "b" sampleFullCache = None) by (vm_compute; reflexivity).
  assert (Ht : "Nice" <> "") by discriminate.
  assert (Hts : List.Forall (fun kv => (snd (snd kv) <= 5)%Z) sampleFullCache).
  { apply List.Forall_forall. intros kv Hkv. unfold sampleFullCache in Hkv.
    apply in_map_iff in Hkv as (n & <- & _). simpl. lia. }
  split; [exact Hn|split; [exact Ht|split; [exact Hts|split]]].
  - exact (new_entry_survives_trim "b" "Nice" 5 sampleFullCache Hn Ht Hts).
  - vm_compute. reflexivity.
Defined.

(* --------------------------------------------------------------------- *)
(** ** Removing a file drops its queue *)
(* --------------------------------------------------------------------- *)

Lemma presentIds_step s s' :
  BStep s s' ->
  nextId s <= nextId s' /\
  (forall y, In y (presentIds s') -> In y (presentIds s) \/ nextId s <= y).
Proof.
  unfold presentIds. intros Hstep. destruct Hstep as [p s|p s|s|p s|p s|s].
  - split; [simpl; lia|]. intros y Hy. unfold addPendingB in Hy.
    set (q := default [] (pendingEvents s !! p)) in Hy.
    assert (Hp : releasedIds s ++ allQueued (<[p := q ++ [nextId s]]> (pendingEvents s)) ≡ₚ
                 (releasedIds s ++ allQueued (pendingEvents s)) ++ [nextId s]).
    { rewrite aq_insert, (aq_default (pendingEvents s) p). fold q.
      rewrite <- !app_assoc. do 2 apply Permutation_app_head. apply Permutation_app_comm. }
    simpl in Hy. unfold releasedIds in Hy at 1. simpl in Hy. fold (releasedIds s) in Hy.
    apply (perm_in _ _ _ Hp) in Hy. apply in_app_or in Hy as [Hy|[<-|[]]]; [left; exact Hy|right; lia].
  - unfold drainKey.
    destruct (default [] (pendingEvents s !! p)) as [|e rest] eqn:Hq; [split; [lia|auto]|].
    destruct (decide (p ∈ hasGame s)); [|split; [lia|auto]].
    split; [simpl; lia|]. intros y Hy. left.
    set (q := e :: rest) in *.
    assert (Hp : releasedIds (mkBState (<[p := drop PENDING_EVENTS_LIMIT q]> (pendingEvents s))
                   (hasGame s) (intervalOn s) (nextId s) (released s ++ [(p, take PENDING_EVENTS_LIMIT q)]))
                 ++ allQueued (<[p := drop PENDING_EVENTS_LIMIT q]> (pendingEvents s)) ≡ₚ
                 releasedIds s ++ allQueued (pendingEvents s)).
    { unfold releasedIds. cbn [released]. rewrite map_app, concat_app. cbn [map concat snd].
      rewrite app_nil_r.
      rewrite aq_insert, (aq_default (pendingEvents s) p), Hq.
      rewrite <- !app_assoc. apply Permutation_app_head. rewrite app_assoc, take_drop. done. }
    cbn [pendingEvents] in Hy. exact (perm_in _ _ _ Hp Hy).
  - unfold endTick. destruct (noPending s); split; auto.
  - unfold removeFile. destruct (decide (p ∈ hasGame s)); [|split; [lia|auto]].
    split; [simpl; lia|]. intros y Hy. left. simpl in Hy.
    apply in_app_or in Hy as [Hy|Hy]; apply in_or_app; [left; exact Hy|right].
    apply (perm_in _ _ _ (Permutation_sym (aq_default (pendingEvents s) p))).
    apply in_or_app. right. exact Hy.
  - unfold newGame. destruct (decide (p ∈ hasGame s)); [split; [lia|auto]|].
    split; [simpl; lia|]. intros y Hy. left. simpl in Hy.
    apply in_app_or in Hy as [Hy|Hy]; apply in_or_app; [left; exact Hy|right].
    apply (perm_in _ _ _ (aq_insert _ _ _)) in Hy. simpl in Hy.
    apply (perm_in _ _ _ (Permutation_sym (aq_default (pendingEvents s) p))).
    apply in_or_app. right. exact Hy.
  - split; [simpl; lia|]. intros y Hy. left. exact Hy.
Qed.

Lemma presentIds_steps s t :
  rtc BStep s t -> forall y, In y (presentIds t) -> In y (presentIds s) \/ nextId s <= y.
Proof.
  induction 1 as [s|s u t Hstep _ IH]; [auto|].
  intros y Hy. destruct (presentIds_step s u Hstep) as [Hn Hsu].
  destruct (IH y Hy) as [H|H]; [exact (Hsu y H)|right; lia].
Qed.

(** X13: [_handleFileRemoval] deletes the queue of a tracked game: the events
    still queued for it when the file is removed are never released to
    the narration afterwards, whatever happens next (more events for the
    same path included), and never queued again. *)
Theorem removed_queue_never_released (p : string) (s t : BState) (q : list nat) (x : nat) :
  BReachable s -> p ∈ hasGame s -> pendingEvents s !! p = Some q -> In x q ->
  rtc BStep (removeFile p s) t ->
  ~ In x (releasedIds t) /\ ~ In x (allQueued (pendingEvents t)).
Proof.
  intros Hr Hg Hq Hx Ht.
  destruct (BInv_reachable s Hr) as (I1 & I2 & _ & _).
  assert (Hperm : releasedIds s ++ allQueued (pendingEvents s) ≡ₚ
                  q ++ (releasedIds s ++ allQueued (delete p (pendingEvents s)))).
  { rewrite (aq_lookup _ _ _ Hq), !app_assoc. apply Permutation_app_tail, Permutation_app_comm. }
  assert (Hlt : x < nextId s).
  { apply I1. apply (perm_in _ _ _ (Permutation_sym Hperm)). apply in_or_app. left. exact Hx. }
  assert (Hout : ~ In x (presentIds (removeFile p s))).
  { unfold removeFile, presentIds. destruct (decide (p ∈ hasGame s)); [|done]. simpl.
    unfold releasedIds at 1. simpl. fold (releasedIds s). intros Hin.
    rewrite Hperm in I2. apply NoDup_app in I2 as (_ & Hdis & _).
    apply (Hdis x); apply list_elem_of_In; done. }
  assert (Hn : nextId (removeFile p s) = nextId s).
  { unfold removeFile. destruct (decide (p ∈ hasGame s)); reflexivity. }
  split; intros Hin.
  - destruct (presentIds_steps _ _ Ht x ltac:(apply in_or_app; left; exact Hin)) as [H|H];
      [exact (Hout H)|lia].
  - destruct (presentIds_steps _ _ Ht x ltac:(apply in_or_app; right; exact Hin)) as [H|H];
      [exact (Hout H)|lia].
Qed.

(** Four events queued, the file removed, then a new event and drains. *)
Lemma removed_queue_never_released_witness :
  BReachable sampleFourQueued /\ "g.slp" ∈ hasGame sampleFourQueued /\
  pendingEvents sampleFourQueued !! "g.slp" = Some [0; 1; 2; 3] /\ In 0 [0; 1; 2; 3] /\
  rtc BStep (removeFile "g.slp" sampleFourQueued)
    (drainKey "g.slp" (addPendingB "g.slp" (removeFile "g.slp" sampleFourQueued))) /\
  ~ In 0 (releasedIds (drainKey "g.slp" (addPendingB "g.slp" (removeFile "g.slp" sampleFourQueued)))).
Proof.
  assert (Hr : BReachable sampleFourQueued).
  { unfold sampleFourQueued. simpl.
    do 4 (eapply BR_step; [|apply BS_add]). eapply BR_step; [apply BR_init|apply BS_newGame]. }
  assert (Hg : "g.slp" ∈ hasGame sampleFourQueued).
  { change (hasGame sampleFourQueued) with ({["g.slp"]} ∪ (∅ : gset string)). set_solver. }
  assert (Hq : pendingEvents sampleFourQueued !! "g.slp" = Some [0; 1; 2; 3]).
  { vm_compute. reflexivity. }
  assert (Hx : In 0 [0; 1; 2; 3]) by (left; reflexivity).
  assert (Ht : rtc BStep (removeFile "g.slp" sampleFourQueued)
                 (drainKey "g.slp" (addPendingB "g.slp" (removeFile "g.slp" sampleFourQueued)))).
  { eapply rtc_l; [apply BS_add|]. eapply rtc_l; [apply BS_drain|]. apply rtc_refl. }
  split; [exact Hr|split; [exact Hg|split; [exact Hq|split; [exact Hx|split; [exact Ht|]]]]].
  exact (proj1 (removed_queue_never_released "g.slp" sampleFourQueued _ [0; 1; 2; 3] 0 Hr Hg Hq Hx Ht)).
Defined.
